(** * rss2discord: the delivery ledger and the per-entry pipeline

    A shallow embedding of [rss2discord/__init__.py].  The third-party
    libraries the program calls (feedparser, BeautifulSoup, html_to_markdown,
    requests, json, the wall clock) are collaborators: they appear as the
    fields of one record, [collaborators], and every definition of the
    program is a function of it.  The program's own control flow, its
    dictionary updates and its exception handling are written out.

    Conventions.
    - A Python [str] is a [string] whose characters are the code points
      0..255.
    - A timestamp ([datetime.timestamp()]) is an integer number of
      microseconds since the epoch; only its order and its being zero or
      not are used by the program.
    - A Python dictionary with optional keys is a record of [option]s; the
      ledger, a dictionary keyed by entry id, is a [gmap string row].
    - A raised exception is a value of [exn]; a call that may raise returns
      a [result]. *)

From Stdlib Require Import ZArith Ascii String List Lia.
From stdpp Require Import base option list strings gmap fin_maps.

Local Open Scope string_scope.
Local Open Scope list_scope.
Local Open Scope Z_scope.

(** ** Python builtins used by the program *)

Module Py.

(** [str.isspace] on the code points 0..255. *)
Definition isspace (c : ascii) : bool :=
  let n := N_of_ascii c in
  (((9 <=? n) && (n <=? 13)) || ((28 <=? n) && (n <=? 32))
   || (n =? 133) || (n =? 160))%N.

(** The line boundaries of [str.splitlines] on the code points 0..255. *)
Definition islinebreak (c : ascii) : bool :=
  let n := N_of_ascii c in
  (((10 <=? n) && (n <=? 13)) || ((28 <=? n) && (n <=? 30)) || (n =? 133))%N.

Definition is_cr (c : ascii) : bool := (N_of_ascii c =? 13)%N.
Definition is_lf (c : ascii) : bool := (N_of_ascii c =? 10)%N.
Definition is_tab (c : ascii) : bool := (N_of_ascii c =? 9)%N.

Definition chars (s : string) : list ascii := list_ascii_of_string s.
Definition str (l : list ascii) : string := string_of_list_ascii l.

Fixpoint lstrip_chars (l : list ascii) : list ascii :=
  match l with
  | [] => []
  | c :: l' => if isspace c then lstrip_chars l' else l
  end.

Definition strip_chars (l : list ascii) : list ascii :=
  rev (lstrip_chars (rev (lstrip_chars l))).

(** [s.strip()] *)
Definition strip (s : string) : string := str (strip_chars (chars s)).

Definition tab_to_spaces (c : ascii) : list ascii :=
  if is_tab c then [" "%char; " "%char] else [c].

(** [s.replace('\t', '  ')] *)
Definition replace_tabs (s : string) : string :=
  str (flat_map tab_to_spaces (chars s)).

(** [s.splitlines()]: [cur] is the current line, reversed; [after_cr]
    says that the previous character was a carriage return, so that a
    line feed that follows belongs to the same boundary. *)
Fixpoint splitlines_go (after_cr : bool) (cur : list ascii)
         (l : list ascii) : list string :=
  match l with
  | [] => match cur with [] => [] | _ => [str (rev cur)] end
  | c :: l' =>
      if after_cr && is_lf c then splitlines_go false cur l'
      else if islinebreak c then str (rev cur) :: splitlines_go (is_cr c) [] l'
      else splitlines_go false (c :: cur) l'
  end.

Definition splitlines (s : string) : list string :=
  splitlines_go false [] (chars s).

(** Truthiness of a string: [bool(s)]. *)
Definition nonempty (s : string) : bool :=
  match s with EmptyString => false | _ => true end.

(** [sub in s] *)
Definition occurs (sub s : string) : Prop :=
  ∃ pre post : list ascii, chars s = pre ++ chars sub ++ post.

End Py.

(** ** Exceptions and results *)

Inductive exn :=
| AttributeError (name : string)
| KeyError (key : string)
| IndexError
| ValueError
| TypeError
| RequestException (msg : string).

Inductive result (A : Type) :=
| Ok (a : A)
| Raise (e : exn).
Arguments Ok {A} a.
Arguments Raise {A} e.

Global Instance result_ret : MRet result := λ A a, Ok a.
Global Instance result_bind : MBind result := λ A B f m,
  match m with Ok a => f a | Raise e => Raise e end.

(** [o] if present, else raise [e]: attribute and key access. *)
Definition require {A} (o : option A) (e : exn) : result A :=
  match o with Some a => Ok a | None => Raise e end.

(** ** Data model *)

Definition timestamp := Z.

(** The length in microseconds of a day during which the UTC offset does
    not change. *)
Definition day : Z := 86400000000.

Record FeedConfig := {
  feed_url : option string;
  username : option string;
  avatar_url : option string;
  include_summary : bool;
  include_image : bool;
}.

(** The command line options the agent reads. *)
Record Options := {
  dry_run : bool;
  populate : bool;
  max_age : Z;
}.

(** An item of [entry.media_content]: a dictionary of strings. *)
Record media_item := {
  medium : option string;
  media_url : option string;
  height : option string;
  width : option string;
}.

(** A feed entry as feedparser yields it; every field may be missing.
    [content] lists the [value] of each content item. *)
Record Entry := {
  id : option string;
  link : option string;
  title : option string;
  summary : option string;
  content : option (list string);
  media_content : option (list media_item);
}.

(** [data.feed] *)
Record FeedMeta := {
  feed_link : option string;
  feed_title : option string;
}.

(** The result of [feedparser.parse]. *)
Record Parsed := {
  bozo : bool;
  error : option string;
  status : option Z;
  feed : FeedMeta;
  entries : list Entry;
}.

(** The value of [embed['image']] or [embed['thumbnail']]. *)
Inductive attachment :=
| MediaImage (url : string) (h w : option Z)
| InlineThumbnail (url : string).

Record Embed := {
  embed_type : string;
  embed_url : string;
  author_url : string;
  author_name : string;
  description : string;
  image : option attachment;
  thumbnail : option attachment;
}.

Record Payload := {
  payload_username : option string;
  payload_avatar_url : option string;
  embeds : list Embed;
}.

(** The value stored under [row['sent']]. *)
Inductive sent_value :=
| SentFlag (b : bool)
| SentAt (t : timestamp).

Record http_error := {
  code : Z;
  text : string;
  when : timestamp;
}.

Record exception_info := {
  exc_error : exn;
  exc_time : timestamp;
}.

(** A ledger record, [self.database[entry.id]]. *)
Record row := {
  url : option string;
  last_seen : option timestamp;
  sent : option sent_value;
  errors : option (list http_error);
  last_exception : option exception_info;
}.

Definition empty_row : row :=
  {| url := None; last_seen := None; sent := None; errors := None;
     last_exception := None |}.

(** Truthiness of [row.get('sent')]. *)
Definition truthy (s : option sent_value) : bool :=
  match s with
  | None => false
  | Some (SentFlag b) => b
  | Some (SentAt t) => negb (t =? 0)
  end.

Definition set_url (u : string) (r : row) : row :=
  {| url := Some u; last_seen := last_seen r; sent := sent r;
     errors := errors r; last_exception := last_exception r |}.
Definition set_last_seen (t : timestamp) (r : row) : row :=
  {| url := url r; last_seen := Some t; sent := sent r;
     errors := errors r; last_exception := last_exception r |}.
Definition set_sent (v : sent_value) (r : row) : row :=
  {| url := url r; last_seen := last_seen r; sent := Some v;
     errors := errors r; last_exception := last_exception r |}.
Definition set_errors (l : list http_error) (r : row) : row :=
  {| url := url r; last_seen := last_seen r; sent := sent r;
     errors := Some l; last_exception := last_exception r |}.
Definition set_last_exception (x : exception_info) (r : row) : row :=
  {| url := url r; last_seen := last_seen r; sent := sent r;
     errors := errors r; last_exception := Some x |}.

Definition set_image (a : attachment) (e : Embed) : Embed :=
  {| embed_type := embed_type e; embed_url := embed_url e;
     author_url := author_url e; author_name := author_name e;
     description := description e; image := Some a;
     thumbnail := thumbnail e |}.
Definition set_thumbnail (a : attachment) (e : Embed) : Embed :=
  {| embed_type := embed_type e; embed_url := embed_url e;
     author_url := author_url e; author_name := author_name e;
     description := description e; image := image e;
     thumbnail := Some a |}.

(** ** Collaborators *)

(** The keyword arguments of [html_to_markdown.convert_to_markdown]. *)
Record md_options := {
  heading_style : string;
  strip_newlines : bool;
  escape_misc : bool;
  wrap : bool;
  bullets : string;
  strip : list string;
}.

(** What [requests.post] does: a response, or an exception. *)
Inductive http_result :=
| Response (status_code : Z) (body : string)
| Failed (e : exn).

(** The libraries and the outside world.  [clock k] is the value of the
    [k]-th call of [datetime.datetime.now().timestamp()]; [requests_post k]
    and [feedparser_parse k] answer the [k]-th request and the [k]-th
    fetch.  [json_loads] gives [None] for [JSONDecodeError]; a text that
    is valid JSON is taken to be a ledger, an object of records.
    [find_all_img_src html] is the list of the [src] of the [img] elements
    that have one, in the order [BeautifulSoup.find_all] gives them.

    [days_before k d] is the value of
    [(datetime.datetime.now() - datetime.timedelta(days=d)).timestamp()]
    when [now()] is the [k]-th reading of the clock.  The subtraction is
    done on the local date and time, so the result need not be [clock k]
    minus [d] times 86400 seconds: across a change of the UTC offset it is
    off by that change.  It is [None] when Python cannot compute it: the
    date is out of the range of [datetime] ([OverflowError] from the
    subtraction, [ValueError] from [timestamp()] next to year 1).

    [urljoin] and [convert_to_markdown] stand for the calls that return;
    what these libraries raise on an input they reject is not part of
    this record. *)
Record collaborators := {
  clock : nat → timestamp;
  days_before : nat → Z → option timestamp;
  json_loads : string → option (gmap string row);
  json_dumps : gmap string row → string;
  find_all_img_src : string → list string;
  urljoin : string → string → string;
  convert_to_markdown : md_options → string → string;
  int_of_str : string → option Z;
  feedparser_parse : nat → option string → result Parsed;
  requests_post : nat → string → Payload → http_result;
}.

(** One call of [requests.post], as the world saw it. *)
Record attempt := {
  att_entry : Entry;
  att_webhook : string;
  att_payload : Payload;
  att_result : http_result;
}.

(** The agent's ledger ([self.database]) together with the part of the
    world the program acts on: the files, the number of clock readings
    and fetches made so far, and the log of webhook requests. *)
Record state := {
  database : gmap string row;
  fs : gmap string string;
  clock_reads : nat;
  posts : list attempt;
  fetches : nat;
}.

(** The fields of the agent that are fixed at construction. *)
Record DiscordRSS := {
  webhook : string;
  feeds : list FeedConfig;
  database_file : string;
}.

Definition set_database (db : gmap string row) (st : state) : state :=
  {| database := db; fs := fs st; clock_reads := clock_reads st;
     posts := posts st; fetches := fetches st |}.
Definition set_fs (f : gmap string string) (st : state) : state :=
  {| database := database st; fs := f; clock_reads := clock_reads st;
     posts := posts st; fetches := fetches st |}.
Definition tick (st : state) : state :=
  {| database := database st; fs := fs st; clock_reads := S (clock_reads st);
     posts := posts st; fetches := fetches st |}.
Definition log_post (a : attempt) (st : state) : state :=
  {| database := database st; fs := fs st; clock_reads := clock_reads st;
     posts := posts st ++ [a]; fetches := fetches st |}.
Definition count_fetch (st : state) : state :=
  {| database := database st; fs := fs st; clock_reads := clock_reads st;
     posts := posts st; fetches := S (fetches st) |}.
Definition set_row (i : string) (r : row) (st : state) : state :=
  set_database (<[i := r]> (database st)) st.

Definition newline : string := String "010" "".

(** ** The program *)

Section Program.

Variable E : collaborators.

(** [datetime.datetime.now().timestamp()] *)
Definition now (st : state) : timestamp * state :=
  (clock E (clock_reads st), tick st).

Definition markdown_options : md_options :=
  {| heading_style := "atx"; strip_newlines := true; escape_misc := false;
     wrap := false; bullets := "*"; strip := ["img"] |}.

Definition to_markdown (html : string) : string :=
  if Py.nonempty html
  then Py.replace_tabs (Py.strip (convert_to_markdown E markdown_options html))
  else "".

(** [entry.content[0].value] *)
Definition first_content (items : list string) : result string :=
  require (head items) IndexError.

Definition get_content (entry : Entry) : result (string * list string) :=
  html ← match content entry with
         | Some items => first_content items
         | None => match summary entry with
                   | Some s => Ok s
                   | None => Ok ""
                   end
         end;
  images ← mapM (λ src, l ← require (link entry) (AttributeError "link");
                        Ok (urljoin E l src))
                (find_all_img_src E html);
  md_text ← match summary entry with
            | Some (String c s) => Ok (to_markdown (String c s))
            | _ =>
                match content entry with
                | Some items =>
                    v ← first_content items;
                    Ok (if Py.nonempty v then to_markdown v else "")
                | None => Ok ""
                end
            end;
  Ok (md_text, images).

(** The dictionary built for one media item. *)
Definition media_attachment (item : media_item) : result attachment :=
  u ← require (media_url item) (KeyError "url");
  h ← match height item with
      | Some s => n ← require (int_of_str E s) ValueError; Ok (Some n)
      | None => Ok None
      end;
  w ← match width item with
      | Some s => n ← require (int_of_str E s) ValueError; Ok (Some n)
      | None => Ok None
      end;
  Ok (MediaImage u h w).

(** The body of [for item in entry.media_content]. *)
Definition attach_item (embed : Embed) (item : media_item) : result Embed :=
  m ← require (medium item) (KeyError "medium");
  if String.eqb m "image" then
    match image embed with
    | None => a ← media_attachment item; Ok (set_image a embed)
    | Some _ => Ok embed
    end
  else if String.eqb m "thumbnail" then
    match thumbnail embed with
    | None => a ← media_attachment item; Ok (set_thumbnail a embed)
    | Some _ => Ok embed
    end
  else Ok embed.

Fixpoint attach_media (items : list media_item) (embed : Embed)
  : result Embed :=
  match items with
  | [] => Ok embed
  | item :: items' => embed' ← attach_item embed item; attach_media items' embed'
  end.

(** [if config.include_image: ...] *)
Definition attach_images (config : FeedConfig) (entry : Entry)
           (images : list string) (embed : Embed) : result Embed :=
  if include_image config then
    match media_content entry with
    | Some items => attach_media items embed
    | None =>
        match images with
        | first :: _ => Ok (set_thumbnail (InlineThumbnail first) embed)
        | [] => Ok embed
        end
    end
  else Ok embed.

Definition truthy_str (o : option string) : option string :=
  match o with
  | Some s => if Py.nonempty s then Some s else None
  | None => None
  end.

(** [process_entry], up to the payload it is about to send. *)
Definition build_payload (config : FeedConfig) (fmeta : FeedMeta)
           (entry : Entry) : result Payload :=
  '(md_text, images) ← get_content entry;
  t ← require (title entry) (AttributeError "title");
  l ← require (link entry) (AttributeError "link");
  let heading := "## [" +:+ to_markdown t +:+ "](" +:+ l +:+ ")" in
  let text :=
    if include_summary config
    then heading +:+ newline +:+ md_text +:+ newline
         +:+ "-# [Read more...](<" +:+ l +:+ ">)"
    else heading in
  fl ← require (feed_link fmeta) (AttributeError "link");
  ft ← require (feed_title fmeta) (AttributeError "title");
  let embed :=
    {| embed_type := "rich"; embed_url := l; author_url := fl;
       author_name := to_markdown ft; description := text;
       image := None; thumbnail := None |} in
  embed' ← attach_images config entry images embed;
  Ok {| payload_username := truthy_str (username config);
        payload_avatar_url := truthy_str (avatar_url config);
        embeds := [embed'] |}.

(** [request.status_code // 100 == 2] *)
Definition is_success (status_code : Z) : bool := status_code `div` 100 =? 2.

(** [process_entry].  [r] is the record the caller passes as [row]; the
    record is returned with the other results because the method writes
    to it even when it ends by raising. *)
Definition process_entry (self : DiscordRSS) (options : Options)
           (config : FeedConfig) (fmeta : FeedMeta) (entry : Entry)
           (r : row) (st : state) : row * state * result bool :=
  match build_payload config fmeta entry with
  | Raise err => (r, st, Raise err)
  | Ok payload =>
      if dry_run options then (r, st, Ok false)
      else
        let request :=
          requests_post E (length (posts st)) (webhook self) payload in
        let st' :=
          log_post {| att_entry := entry; att_webhook := webhook self;
                      att_payload := payload; att_result := request |} st in
        match request with
        | Failed err => (r, st', Raise err)
        | Response status_code body =>
            if is_success status_code then (r, st', Ok true)
            else
              let r' := match errors r with
                        | None => set_errors [] r
                        | Some _ => r
                        end in
              (* a list has no method [push] *)
              (r', st', Raise (AttributeError "push"))
        end
  end.

(** The body of [for entry in data.entries].  An exception that leaves
    this body ends [process_feed]. *)
Definition process_feed_entry (self : DiscordRSS) (options : Options)
           (config : FeedConfig) (fmeta : FeedMeta) (entry : Entry)
           (st : state) : state * result unit :=
  match id entry with
  | None => (st, Raise (AttributeError "id"))
  | Some i =>
      let r0 := default empty_row (database st !! i) in
      let st0 := set_row i r0 st in
      match link entry with
      | None => (st0, Raise (AttributeError "link"))
      | Some l =>
          let r1 := set_url l r0 in
          let '(t, st1) := now st0 in
          let r2 := set_last_seen t r1 in
          if truthy (sent r2) then (set_row i r2 st1, Ok ())
          else if populate options
          then (set_row i (set_sent (SentFlag true) r2) st1, Ok ())
          else
            let '(r3, st2, outcome) :=
              process_entry self options config fmeta entry r2 st1 in
            let r4 := match outcome with
                      | Ok true => set_sent (SentAt t) r3
                      | Ok false => r3
                      | Raise err =>
                          set_last_exception
                            {| exc_error := err; exc_time := t |} r3
                      end in
            (set_row i r4 st2, Ok ())
      end
  end.

Fixpoint process_entries (self : DiscordRSS) (options : Options)
         (config : FeedConfig) (fmeta : FeedMeta) (es : list Entry)
         (st : state) : state * result unit :=
  match es with
  | [] => (st, Ok ())
  | entry :: es' =>
      match process_feed_entry self options config fmeta entry st with
      | (st', Ok _) => process_entries self options config fmeta es' st'
      | (st', Raise err) => (st', Raise err)
      end
  end.

Definition process_feed (self : DiscordRSS) (options : Options)
           (config : FeedConfig) (st : state) : state * result unit :=
  match feedparser_parse E (fetches st) (feed_url config) with
  | Raise err => (count_fetch st, Raise err)
  | Ok data =>
      let st := count_fetch st in
      if bozo data then
        match error data, status data with
        | Some _, Some _ => (st, Ok ())
        | None, _ => (st, Raise (AttributeError "error"))
        | _, None => (st, Raise (AttributeError "status"))
        end
      else process_entries self options config (feed data) (entries data) st
  end.

(** ['last_seen' in data and data['last_seen'] > cutoff] *)
Definition keep (cutoff : timestamp) (data : row) : bool :=
  match last_seen data with
  | Some t => cutoff <? t
  | None => false
  end.

(** [if options.max_age > 0: ...], the pruning half of [flushdb].  The
    clock is read for the cutoff, which is computed on the local date and
    time ([days_before]), and read once more for the log; then the ledger
    is rebuilt from the records to keep.

    When the cutoff cannot be computed Python raises before the ledger is
    assigned, and [flushdb] ends there.  No exception is carried for this
    here: the ledger is left as it is, after one reading of the clock.
    What [flushdb] does after the pruning is therefore that of the runs
    in which the cutoff is computed. *)
Definition prune (options : Options) (st : state) : state :=
  if 0 <? max_age options then
    let '(_, st1) := now st in
    match days_before E (clock_reads st) (max_age options) with
    | Some cutoff =>
        let '(_, st2) := now st1 in
        set_database (filter (λ kv, keep cutoff kv.2 = true) (database st2)) st2
    | None => st1
    end
  else st.

(** [json.dump] of the ledger: an exception object, which is what
    [last_exception] holds, is not serializable. *)
Definition json_dump (db : gmap string row) : result string :=
  if decide (map_Forall (λ _ r, last_exception r = None) db)
  then Ok (json_dumps E db)
  else Raise TypeError.

(** The saving half of [flushdb].  The write is atomic: when the dump
    raises, the file is as it was. *)
Definition save (self : DiscordRSS) (options : Options) (st : state)
  : state * result unit :=
  if Py.nonempty (database_file self) && negb (dry_run options) then
    match json_dump (database st) with
    | Ok txt => (set_fs (<[database_file self := txt]> (fs st)) st, Ok ())
    | Raise err => (st, Raise err)
    end
  else (st, Ok ()).

Definition flushdb (self : DiscordRSS) (options : Options) (st : state)
  : state * result unit :=
  save self options (prune options st).

(** [for feed in self.feeds], each feed under its own [try]. *)
Fixpoint process_feeds (self : DiscordRSS) (options : Options)
         (fs : list FeedConfig) (st : state) : state :=
  match fs with
  | [] => st
  | config :: fs' =>
      process_feeds self options fs' (process_feed self options config st).1
  end.

Definition process (self : DiscordRSS) (options : Options) (st : state)
  : state * result unit :=
  flushdb self options (process_feeds self options (feeds self) st).

(** The old ledger format: [{line.strip(): {'last_seen': now} for line in
    dbtext.splitlines()}]. *)
Fixpoint legacy_database (lines : list string) (db : gmap string row)
         (st : state) : gmap string row * state :=
  match lines with
  | [] => (db, st)
  | line :: lines' =>
      let '(t, st') := now st in
      legacy_database lines'
        (<[Py.strip line := set_last_seen t empty_row]> db) st'
  end.

(** The part of [__init__] that loads the ledger; [st] is the world
    before the agent exists, its [database] field is overwritten. *)
Definition init (self : DiscordRSS) (st : state) : state :=
  let st := set_database ∅ st in
  if Py.nonempty (database_file self) then
    match fs st !! database_file self with
    | None => st
    | Some dbtext =>
        match json_loads E dbtext with
        | Some db => set_database db st
        | None =>
            let '(db, st') := legacy_database (Py.splitlines dbtext) ∅ st in
            set_database db st'
        end
    end
  else st.

End Program.

(** ** Configuration and entry point *)

(** The configuration dictionary of one webhook, read from a JSON file.
    A key that is missing and a key that is [null] both read as [None]
    under [config.get]; the two flags are booleans when present.
    [cfg_webhook] and [cfg_feeds], which are read with [config[...]], are
    [None] when the key is missing; [cfg_feeds] holds the items that the
    loop over [config['feeds']] meets, in order.  A value of [feeds] that
    cannot be iterated (a number, a boolean, [null]) is not represented. *)
Inductive override :=
| SetFeedUrl (v : option string)
| SetUsername (v : option string)
| SetAvatarUrl (v : option string)
| SetIncludeSummary (b : bool)
| SetIncludeImage (b : bool)
| Unknown (key : string).

(** An item of [config['feeds']]: a URL, a dictionary of overrides (its
    keys in the order of the document), or any other JSON value (a
    number, a boolean, [null], a list). *)
Inductive feed_spec :=
| FeedUrl (u : string)
| FeedDict (kwds : list override)
| FeedOther.

Record Config := {
  cfg_webhook : option string;
  cfg_feeds : option (list feed_spec);
  cfg_database : option string;
  cfg_feed_url : option string;
  cfg_username : option string;
  cfg_avatar_url : option string;
  cfg_include_summary : option bool;
  cfg_include_image : option bool;
}.

Definition parse_config (config : Config) : FeedConfig :=
  {| feed_url := cfg_feed_url config;
     username := cfg_username config;
     avatar_url := cfg_avatar_url config;
     include_summary := default true (cfg_include_summary config);
     include_image := default true (cfg_include_image config) |}.

(** The key of an override. *)
Definition key_of (o : override) : string :=
  match o with
  | SetFeedUrl _ => "feed_url"
  | SetUsername _ => "username"
  | SetAvatarUrl _ => "avatar_url"
  | SetIncludeSummary _ => "include_summary"
  | SetIncludeImage _ => "include_image"
  | Unknown key => key
  end.

Definition replace_field (c : FeedConfig) (o : override) : FeedConfig :=
  match o with
  | SetFeedUrl v =>
      {| feed_url := v; username := username c; avatar_url := avatar_url c;
         include_summary := include_summary c;
         include_image := include_image c |}
  | SetUsername v =>
      {| feed_url := feed_url c; username := v; avatar_url := avatar_url c;
         include_summary := include_summary c;
         include_image := include_image c |}
  | SetAvatarUrl v =>
      {| feed_url := feed_url c; username := username c; avatar_url := v;
         include_summary := include_summary c;
         include_image := include_image c |}
  | SetIncludeSummary b =>
      {| feed_url := feed_url c; username := username c;
         avatar_url := avatar_url c; include_summary := b;
         include_image := include_image c |}
  | SetIncludeImage b =>
      {| feed_url := feed_url c; username := username c;
         avatar_url := avatar_url c; include_summary := include_summary c;
         include_image := b |}
  | Unknown _ => c
  end.

Definition is_unknown (o : override) : bool :=
  match o with Unknown _ => true | _ => false end.

(** [defaults._replace] with the dictionary as its keyword arguments: the
    named fields are replaced; a keyword that is not a field of the named
    tuple raises [ValueError] (up to Python 3.12; [TypeError] since). *)
Definition replace_fields (defaults : FeedConfig) (kwds : list override)
  : result FeedConfig :=
  if existsb is_unknown kwds then Raise ValueError
  else Ok (foldl replace_field defaults kwds).

(** One item of the list comprehension that builds [self.feeds]: a
    string is the URL; anything else is unpacked as keyword arguments,
    which raises [TypeError] when it is not a mapping. *)
Definition feed_config (defaults : FeedConfig) (spec : feed_spec)
  : result FeedConfig :=
  match spec with
  | FeedUrl u => Ok (replace_field defaults (SetFeedUrl (Some u)))
  | FeedDict kwds => replace_fields defaults kwds
  | FeedOther => Raise TypeError
  end.

(** The part of [__init__] that reads the configuration. *)
Definition configure (config : Config) : result DiscordRSS :=
  w ← require (cfg_webhook config) (KeyError "webhook");
  let defaults := parse_config config in
  specs ← require (cfg_feeds config) (KeyError "feeds");
  fs ← mapM (feed_config defaults) specs;
  Ok {| webhook := w; feeds := fs;
        database_file := default "" (cfg_database config) |}.

(** [logging.WARNING], [logging.INFO], [logging.DEBUG] *)
Definition LOG_LEVELS : list Z := [30; 20; 10].

(** [LOG_LEVELS[min(options.verbosity, len(LOG_LEVELS) - 1)]], for the
    count of [-v] flags. *)
Definition log_level (verbosity : nat) : option Z :=
  LOG_LEVELS !! (verbosity `min` (length LOG_LEVELS - 1))%nat.

(** The loop of [main] over the configuration files.  [read_config]
    stands for [open] and [json.load] of a configuration file, given the
    files as they are at that moment.  Each file gets its own agent;
    nothing is caught. *)
Fixpoint main_loop (E : collaborators)
         (read_config : gmap string string → string → result Config)
         (options : Options) (config_files : list string) (st : state)
  : state * result unit :=
  match config_files with
  | [] => (st, Ok ())
  | config_file :: rest =>
      match read_config (fs st) config_file ≫= configure with
      | Raise err => (st, Raise err)
      | Ok rss =>
          match process E rss options (init E rss st) with
          | (st', Ok _) => main_loop E read_config options rest st'
          | (st', Raise err) => (st', Raise err)
          end
      end
  end.

(** ** Vocabulary of the statements *)

(** The number of images an embed carries. *)
Definition attached_images (embed : Embed) : nat :=
  (match image embed with Some _ => 1 | None => 0 end
   + match thumbnail embed with Some _ => 1 | None => 0 end)%nat.

(** The first item of a media list with a given medium. *)
Definition first_of_medium (m : string) (items : list media_item)
  : option media_item :=
  List.find (λ item, bool_decide (medium item = Some m)) items.

Definition is_picture (item : media_item) : Prop :=
  medium item = Some "image" ∨ medium item = Some "thumbnail".

(** What a slot of the embed holds after the loop over the media list,
    when the slot was empty before: the dictionary built from the first
    item of that medium, if there is one. *)
Definition slot_filled_from (E : collaborators) (m : string)
           (items : list media_item) (slot : option attachment) : Prop :=
  match first_of_medium m items with
  | Some item => ∃ a, media_attachment E item = Ok a ∧ slot = Some a
  | None => slot = None
  end.

Definition no_image (embed : Embed) : Prop :=
  image embed = None ∧ thumbnail embed = None.

(** The [sent] value the ledger holds for an entry id. *)
Definition sent_at (i : string) (st : state) : option sent_value :=
  database st !! i ≫= sent.

(** The requests made between two states. *)
Definition new_posts (before after : state) : list attempt :=
  drop (length (posts before)) (posts after).

(** The number of requests made for an entry id. *)
Definition attempts_for (i : string) (log : list attempt) : nat :=
  length (filter (λ a, id (att_entry a) = Some i) log).

(** A request that was answered with a status in [200,300). *)
Definition answered_2xx (a : attempt) : Prop :=
  ∃ status_code body,
    att_result a = Response status_code body ∧ is_success status_code = true.

(** The record of the entry as [process_feed] finds it. *)
Definition found (i : string) (st : state) : row :=
  default empty_row (database st !! i).

(** The ways in which processing an entry fails: while extracting its
    content, while building the payload, or while posting it. *)
Inductive fails_with (E : collaborators) (self : DiscordRSS) (options : Options)
          (config : FeedConfig) (fmeta : FeedMeta) (entry : Entry)
          (st : state) (err : exn) : Prop :=
| fails_in_extraction :
    get_content E entry = Raise err →
    fails_with E self options config fmeta entry st err
| fails_in_payload :
    build_payload E config fmeta entry = Raise err →
    fails_with E self options config fmeta entry st err
| fails_in_delivery payload :
    build_payload E config fmeta entry = Ok payload →
    dry_run options = false →
    requests_post E (length (posts st)) (webhook self) payload = Failed err →
    fails_with E self options config fmeta entry st err.

Definition all_answered_2xx (i : string) (log : list attempt) : Prop :=
  Forall (λ a, id (att_entry a) = Some i → answered_2xx a) log.

(** What holds between two states of a run, for the entry id [i]: an
    entry that is marked sent gets no request and keeps its mark; and if
    every request made for [i] is answered 2xx, there is at most one, and
    after it the entry is marked sent. *)
Definition delivers_once (i : string) : relation state := λ st st',
  ∃ delta,
    posts st' = posts st ++ delta
    ∧ (truthy (sent_at i st) = true →
       attempts_for i delta = 0%nat ∧ sent_at i st' = sent_at i st)
    ∧ (all_answered_2xx i delta →
       (attempts_for i delta ≤ 1)%nat
       ∧ (attempts_for i delta = 1%nat → truthy (sent_at i st') = true)).

(** The operations of the pipeline on the ledger. *)
Inductive operation :=
| op_entry (options : Options) (config : FeedConfig) (fmeta : FeedMeta)
           (entry : Entry)
| op_feed (options : Options) (config : FeedConfig)
| op_prune (options : Options)
| op_save (options : Options)
| op_flush (options : Options)
| op_process (options : Options).

Definition perform (E : collaborators) (self : DiscordRSS) (op : operation)
           (st : state) : state :=
  match op with
  | op_entry options config fmeta entry =>
      (process_feed_entry E self options config fmeta entry st).1
  | op_feed options config => (process_feed E self options config st).1
  | op_prune options => prune E options st
  | op_save options => (save E self options st).1
  | op_flush options => (flushdb E self options st).1
  | op_process options => (process E self options st).1
  end.

Definition perform_all (E : collaborators) (self : DiscordRSS)
           (ops : list operation) (st : state) : state :=
  foldl (λ st op, perform E self op st) st ops.

(** The record of [i] exists before, between and after the operations. *)
Fixpoint alive_through (E : collaborators) (self : DiscordRSS) (i : string)
         (ops : list operation) (st : state) : Prop :=
  is_Some (database st !! i)
  ∧ match ops with
    | [] => True
    | op :: ops' => alive_through E self i ops' (perform E self op st)
    end.

(** [sent] is as it was, or went from not truthy to truthy. *)
Definition sent_forward (s s' : option sent_value) : Prop :=
  s' = s ∨ (truthy s = false ∧ truthy s' = true).

(** [sent] is as it was, or was not truthy and has been set to [True] or
    to a reading of the clock. *)
Definition sent_written (E : collaborators) (s s' : option sent_value)
  : Prop :=
  s' = s
  ∨ (truthy s = false
     ∧ (s' = Some (SentFlag true) ∨ ∃ k, s' = Some (SentAt (clock E k)))).

(** Between two states of the per-entry loops: no record is removed and
    no [sent] is written unless it was not truthy. *)
Definition grows (E : collaborators) : relation state := λ st st',
  ∀ j, sent_written E (sent_at j st) (sent_at j st')
       ∧ (is_Some (database st !! j) → is_Some (database st' !! j)).

(** Between two states of a dry run: no request, no write, and, unless
    populate is on, no change of any [sent]. *)
Definition rehearses (options : Options) : relation state := λ st st',
  posts st' = posts st ∧ fs st' = fs st
  ∧ (populate options = false → ∀ j, sent_at j st' = sent_at j st).

(** The record synthesized for a line of an old-format ledger. *)
Definition seen_at (t : timestamp) : row :=
  {| url := None; last_seen := Some t; sent := None; errors := None;
     last_exception := None |}.

(** A text without any white space. *)
Definition solid (l : list ascii) : Prop := Forall (λ c, Py.isspace c = false) l.

(** The HTML the images are taken from: the rich content if the entry has
    one, else the summary, else nothing. *)
Definition image_html (entry : Entry) : string :=
  match content entry with
  | Some (c :: _) => c
  | Some [] => ""
  | None => default "" (summary entry)
  end.

(** The HTML the text is taken from: the summary if the entry has one and
    it is not empty, else the rich content, else nothing. *)
Definition text_html (entry : Entry) : string :=
  match summary entry with
  | Some (String a s) => String a s
  | _ => match content entry with
         | Some (c :: _) => c
         | _ => ""
         end
  end.

(** The record of [i] holds an exception. *)
Definition has_exception (i : string) (st : state) : Prop :=
  ∃ r, database st !! i = Some r ∧ last_exception r ≠ None.

(** Between two states of a run: an exception that is recorded stays
    recorded, and every request that was not answered 2xx has left an
    exception in the record of its entry. *)
Definition marks_failures : relation state := λ st st',
  ∃ delta,
    posts st' = posts st ++ delta
    ∧ (∀ i, has_exception i st → has_exception i st')
    ∧ Forall (λ a, ¬ answered_2xx a →
                   ∃ i, id (att_entry a) = Some i ∧ has_exception i st') delta.

(** A request as [process_entry] makes it: to the webhook of the agent,
    with dry-run and populate off, carrying the payload built for its
    entry under some feed configuration. *)
Definition as_built (E : collaborators) (self : DiscordRSS)
           (options : Options) (a : attempt) : Prop :=
  att_webhook a = webhook self
  ∧ dry_run options = false ∧ populate options = false
  ∧ ∃ config fmeta,
      build_payload E config fmeta (att_entry a) = Ok (att_payload a).

Definition posts_as_built (E : collaborators) (self : DiscordRSS)
           (options : Options) : relation state := λ st st',
  ∃ delta, posts st' = posts st ++ delta ∧ Forall (as_built E self options) delta.

(** An entry the loop of [process_feed] can pass: it has an id and a
    link. *)
Definition passable (entry : Entry) : Prop :=
  id entry ≠ None ∧ link entry ≠ None.

(** A media item the loop of [process_entry] can pass, whatever the embed
    holds: it has a medium and, if it is a picture, a URL and numeric
    dimensions. *)
Definition media_ok (E : collaborators) (item : media_item) : Prop :=
  medium item ≠ None
  ∧ (is_picture item → ∃ a, media_attachment E item = Ok a).

(** A text that neither starts nor ends with white space. *)
Definition trimmed (l : list ascii) : Prop :=
  (∀ c, head l = Some c → Py.isspace c = false)
  ∧ (∀ c, last l = Some c → Py.isspace c = false).

(** The ledger holds a record for [i] whose [url] is the link of an entry
    of [es] with that id and whose [last_seen] is a reading of the clock
    taken since the reading number [k0]. *)
Definition recorded_since (E : collaborators) (es : list Entry) (k0 : nat)
           (i : string) (st : state) : Prop :=
  ∃ r, database st !! i = Some r
       ∧ (∃ e, e ∈ es ∧ id e = Some i ∧ url r = link e)
       ∧ (∃ k, (k0 ≤ k < clock_reads st)%nat ∧ last_seen r = Some (clock E k)).

(** The field an override names holds the value the override gives. *)
Definition agrees (c : FeedConfig) (o : override) : Prop :=
  match o with
  | SetFeedUrl v => feed_url c = v
  | SetUsername v => username c = v
  | SetAvatarUrl v => avatar_url c = v
  | SetIncludeSummary b => include_summary c = b
  | SetIncludeImage b => include_image c = b
  | Unknown _ => False
  end.

(** The fields the overrides do not name are those of [defaults]. *)
Definition inherits (defaults c : FeedConfig) (kwds : list override) : Prop :=
  ("feed_url" ∉ key_of <$> kwds → feed_url c = feed_url defaults)
  ∧ ("username" ∉ key_of <$> kwds → username c = username defaults)
  ∧ ("avatar_url" ∉ key_of <$> kwds → avatar_url c = avatar_url defaults)
  ∧ ("include_summary" ∉ key_of <$> kwds →
     include_summary c = include_summary defaults)
  ∧ ("include_image" ∉ key_of <$> kwds →
     include_image c = include_image defaults).

(** The settings of one feed, given the item of [config['feeds']] it
    comes from: a URL takes everything else from the defaults; a
    dictionary (with distinct keys) sets the fields it names and takes
    the others from the defaults. *)
Definition configured_from (defaults : FeedConfig) (spec : feed_spec)
           (c : FeedConfig) : Prop :=
  match spec with
  | FeedUrl u =>
      c = {| feed_url := Some u; username := username defaults;
             avatar_url := avatar_url defaults;
             include_summary := include_summary defaults;
             include_image := include_image defaults |}
  | FeedDict kwds =>
      inherits defaults c kwds
      ∧ (NoDup (key_of <$> kwds) → ∀ o, o ∈ kwds → agrees c o)
  | FeedOther => False
  end.

(** An item of [config['feeds']] that gives the settings of a feed: a
    URL, or a dictionary whose keys are all fields of [FeedConfig]. *)
Definition usable (spec : feed_spec) : Prop :=
  match spec with
  | FeedUrl _ => True
  | FeedDict kwds => ∀ key, Unknown key ∉ kwds
  | FeedOther => False
  end.

(** ** A sample world

    Concrete collaborators on which the definitions can be run: a clock
    that starts in November 2023 and advances by one second per reading,
    in a time zone whose UTC offset is always zero,
    a webhook that answers from a fixed script, and an HTML scanner that
    knows one document. *)

Module Sample.

Definition t0 : timestamp := 1700000000000000.

Definition html : string := "<p>Hello <img src='a.png'>world</p>".

(** The dates and times of which [timestamp()] gives the timestamp, in
    that time zone: from 0001-01-02 00:00:00 to the end of year 9999. *)
Definition first_timestamp : timestamp := -62135510400000000.
Definition end_of_timestamps : timestamp := 253402300800000000.

Definition world (answers : list http_result) : collaborators :=
  {| clock := λ k, t0 + Z.of_nat k * 1000000;
     days_before := λ k d,
       let t := t0 + Z.of_nat k * 1000000 - d * day in
       if (first_timestamp <=? t) && (t <? end_of_timestamps)
       then Some t else None;
     json_loads := λ _, None;
     json_dumps := λ _, "{}";
     find_all_img_src := λ h, if String.eqb h html then ["a.png"] else [];
     urljoin := λ base src, base +:+ src;
     convert_to_markdown := λ _ h,
       if String.eqb h html then "Hello world" +:+ newline +:+ newline else h;
     int_of_str := λ s, if String.eqb s "600" then Some 600
                        else if String.eqb s "400" then Some 400 else None;
     feedparser_parse := λ _ _, Raise (RequestException "offline");
     requests_post := λ k _ _,
       default (Failed (RequestException "offline")) (answers !! k) |}.

Definition config : FeedConfig :=
  {| feed_url := Some "http://x/feed"; username := Some "rss";
     avatar_url := None; include_summary := true; include_image := true |}.

Definition bot : DiscordRSS :=
  {| webhook := "https://discord.example/hook"; feeds := [config];
     database_file := "feeds.db" |}.

Definition fmeta : FeedMeta :=
  {| feed_link := Some "http://x/"; feed_title := Some "X" |}.

Definition entry (i : string) : Entry :=
  {| id := Some i; link := Some "http://x/"; title := Some "Post";
     summary := Some html; content := None; media_content := None |}.

Definition live : Options :=
  {| dry_run := false; populate := false; max_age := 30 |}.

Definition start : state :=
  {| database := ∅; fs := ∅; clock_reads := 0; posts := []; fetches := 0 |}.

(** The same world, with a feed that parses into the entries [es]. *)
Definition online (es : list Entry) (answers : list http_result)
  : collaborators :=
  let W := world answers in
  {| clock := clock W; days_before := days_before W;
     json_loads := json_loads W; json_dumps := json_dumps W;
     find_all_img_src := find_all_img_src W; urljoin := urljoin W;
     convert_to_markdown := convert_to_markdown W; int_of_str := int_of_str W;
     feedparser_parse := λ _ _,
       Ok {| bozo := false; error := None; status := Some 200;
             feed := fmeta; entries := es |};
     requests_post := requests_post W |}.



End Sample.

(** A ledger of three records seen 31 days, 29 days and never before the
    flush, under a retention of 30 days, under none, and under one of a
    million days. *)
Module RetentionSample.
Import Sample.





End RetentionSample.

(** Entries with a structured media list. *)
Module MediaSample.

Definition picture (m u : string) (h w : option string) : media_item :=
  {| medium := Some m; media_url := Some u; height := h; width := w |}.

Definition with_media (items : list media_item) : Entry :=
  {| id := Some "e1"; link := Some "http://x/"; title := Some "Post";
     summary := Some Sample.html; content := None;
     media_content := Some items |}.

(** An image and a thumbnail. *)
Definition both : Entry :=
  with_media [picture "image" "http://x/big.png" (Some "600") (Some "400");
              picture "thumbnail" "http://x/small.png" None None].

(** A video only, next to the inline image of the summary. *)
Definition video : Entry :=
  with_media [picture "video" "http://x/clip.mp4" None None].

End MediaSample.

(** The payload built for the sample entry. *)
Definition sample_payload : Payload :=
  match build_payload (Sample.world []) Sample.config Sample.fmeta
          (Sample.entry "e1") with
  | Ok payload => payload
  | Raise _ =>
      {| payload_username := None; payload_avatar_url := None; embeds := [] |}
  end.

(** An entry without a title, followed by a complete one. *)
Module FailureSample.

Definition untitled : Entry :=
  {| id := Some "e0"; link := Some "http://x/0"; title := None;
     summary := Some "<p>text</p>"; content := None; media_content := None |}.

Definition after_untitled : state :=
  (process_feed_entry (Sample.world [Response 204 ""]) Sample.bot Sample.live
     Sample.config Sample.fmeta untitled Sample.start).1.

End FailureSample.

(** Two runs over a feed of one entry, the webhook accepting the first
    request; the ledger is flushed after the first run. *)
Module TwoRuns.

Definition W : collaborators :=
  Sample.online [Sample.entry "e1"] [Response 204 ""].

Definition run1 : state :=
  process_feeds W Sample.bot Sample.live (feeds Sample.bot) Sample.start.

Definition flushed1 : state := (flushdb W Sample.bot Sample.live run1).1.

Definition run2 : state :=
  process_feeds W Sample.bot Sample.live (feeds Sample.bot) flushed1.

End TwoRuns.

(** After the first of the two sample runs: a flush, a whole run and one
    more look at the entry. *)
Definition later_operations : list operation :=
  [op_flush Sample.live; op_process Sample.live;
   op_entry Sample.live Sample.config Sample.fmeta (Sample.entry "e1");
   op_prune Sample.live].

(** An old-format ledger of two lines, [entry-1] and [entry-2], each in
    double quotes. *)
Module LegacySample.

Definition quoted (s : string) : string :=
  String "034" (s +:+ String "034" "").

Definition dbtext : string := quoted "entry-1" +:+ newline +:+ quoted "entry-2".

Definition disk : state := set_fs {["feeds.db" := dbtext]} Sample.start.

End LegacySample.

(** Further sample inputs. *)
Module MoreSamples.

(** A feed that is flagged by the parser although it has an entry. *)
Definition flagged : collaborators :=
  let W := Sample.world [] in
  {| clock := clock W; days_before := days_before W;
     json_loads := json_loads W; json_dumps := json_dumps W;
     find_all_img_src := find_all_img_src W; urljoin := urljoin W;
     convert_to_markdown := convert_to_markdown W; int_of_str := int_of_str W;
     feedparser_parse := λ _ _,
       Ok {| bozo := true; error := Some "not well-formed"; status := Some 200;
             feed := Sample.fmeta; entries := [Sample.entry "e1"] |};
     requests_post := requests_post W |}.

(** An entry without a link. *)
Definition linkless : Entry :=
  {| id := Some "e2"; link := None; title := Some "Post";
     summary := None; content := None; media_content := None |}.

(** An entry whose media item has no medium. *)
Definition plain_media : Entry :=
  MediaSample.with_media
    [{| medium := None; media_url := Some "http://x/clip.mp4";
        height := None; width := None |}].

Definition populating : Options :=
  {| dry_run := false; populate := true; max_age := 30 |}.

(** A webhook that refuses the only request. *)
Definition refusing : collaborators :=
  Sample.online [Sample.entry "e1"] [Response 429 "rate limited"].


(** The ledger the first of the two sample runs leaves after its flush,
    and a world whose JSON codec knows that ledger. *)
Definition saved : gmap string row := database TwoRuns.flushed1.

Definition archive : collaborators :=
  let W := TwoRuns.W in
  {| clock := clock W; days_before := days_before W;
     json_loads := λ text, if String.eqb text "ledger" then Some saved else None;
     json_dumps := λ _, "ledger";
     find_all_img_src := find_all_img_src W; urljoin := urljoin W;
     convert_to_markdown := convert_to_markdown W; int_of_str := int_of_str W;
     feedparser_parse := feedparser_parse W;
     requests_post := requests_post W |}.

(** A configuration with a feed given as a URL and a feed given as a
    dictionary. *)
Definition two_feeds : Config :=
  {| cfg_webhook := Some "https://discord.example/hook";
     cfg_feeds := Some [FeedUrl "http://x/feed";
                        FeedDict [SetFeedUrl (Some "http://y/feed");
                                  SetUsername (Some "news");
                                  SetIncludeImage false]];
     cfg_database := Some "feeds.db";
     cfg_feed_url := None; cfg_username := Some "rss"; cfg_avatar_url := None;
     cfg_include_summary := None; cfg_include_image := None |}.

(** The same configuration with other lists of feeds. *)
Definition with_feeds (specs : option (list feed_spec)) : Config :=
  {| cfg_webhook := cfg_webhook two_feeds; cfg_feeds := specs;
     cfg_database := cfg_database two_feeds;
     cfg_feed_url := cfg_feed_url two_feeds;
     cfg_username := cfg_username two_feeds;
     cfg_avatar_url := cfg_avatar_url two_feeds;
     cfg_include_summary := cfg_include_summary two_feeds;
     cfg_include_image := cfg_include_image two_feeds |}.

(** An entry whose content list is empty, and an entry with an image and
    without a link. *)
Definition emptied : Entry :=
  {| id := Some "e3"; link := Some "http://x/3"; title := Some "Post";
     summary := Some Sample.html; content := Some [];
     media_content := None |}.

Definition unlinked : Entry :=
  {| id := Some "e4"; link := None; title := Some "Post";
     summary := Some Sample.html; content := None; media_content := None |}.

(** Two configuration files with the same content. *)
Definition read_config (files : gmap string string) (path : string)
  : result Config :=
  if String.eqb path "a.json" || String.eqb path "b.json"
  then Ok two_feeds else Raise (KeyError path).

End MoreSamples.

(** ** The builtins on examples *)

Example splitlines_crlf :
  Py.splitlines ("a" +:+ String "013" (String "010" ("b" +:+ String "010" "")))
  = ["a"; "b"].
Proof. reflexivity. Qed.

Example strip_both : Py.strip (String "009" " ab c " +:+ String "010" "") = "ab c".
Proof. reflexivity. Qed.

Example splitlines_blank :
  Py.splitlines (String "010" (String "010" "x")) = [""; ""; "x"].
Proof. reflexivity. Qed.

(** ** Basic facts about the state *)

Lemma result_bind_Ok {A B} (f : A → result B) (m : result A) (b : B) :
  m ≫= f = Ok b → ∃ a, m = Ok a ∧ f a = Ok b.
Proof. destruct m as [a|e]; simpl; [eauto | discriminate]. Qed.

Lemma truthy_set_sent_flag r : truthy (sent (set_sent (SentFlag true) r)) = true.
Proof. reflexivity. Qed.

Lemma truthy_SentAt t : t ≠ 0 → truthy (Some (SentAt t)) = true.
Proof. intros Ht. simpl. apply negb_true_iff, Z.eqb_neq, Ht. Qed.

Lemma is_success_range status_code :
  is_success status_code = true ↔ 200 ≤ status_code < 300.
Proof.
  unfold is_success. rewrite Z.eqb_eq. split.
  - intros H. pose proof (Z.div_mod status_code 100 ltac:(lia)).
    pose proof (Z.mod_pos_bound status_code 100 ltac:(lia)). lia.
  - intros H. symmetry. apply (Z.div_unique status_code 100 2 (status_code - 200)); lia.
Qed.

(** ** Retention *)

Section Retention.

Variable E : collaborators.

Lemma save_database self options st :
  database (save E self options st).1 = database st.
Proof.
  unfold save.
  destruct (Py.nonempty (database_file self) && negb (dry_run options)); [|done].
  by destruct (json_dump E (database st)).
Qed.

Lemma prune_skipped options st :
  max_age options ≤ 0 → prune E options st = st.
Proof.
  intros H. unfold prune.
  destruct (0 <? max_age options) eqn:Hlt; [|done].
  apply Z.ltb_lt in Hlt. lia.
Qed.

Lemma prune_out_of_range options st :
  days_before E (clock_reads st) (max_age options) = None →
  database (prune E options st) = database st.
Proof.
  intros H. unfold prune. rewrite H. by destruct (0 <? max_age options).
Qed.

Lemma prune_lookup options st cutoff i :
  0 < max_age options →
  days_before E (clock_reads st) (max_age options) = Some cutoff →
  database (prune E options st) !! i
  = r ← database st !! i; if keep cutoff r then Some r else None.
Proof.
  intros H Hcut. unfold prune. apply Z.ltb_lt in H. rewrite H, Hcut. simpl.
  rewrite map_lookup_filter.
  destruct (database st !! i) as [r|]; simpl; [|done].
  case_guard as Hk; simpl in *.
  - by rewrite Hk.
  - by destruct (keep _ r).
Qed.

(** A record is never changed by [flushdb], only kept or dropped. *)
Lemma flushdb_lookup_Some self options st i r :
  database (flushdb E self options st).1 !! i = Some r →
  database st !! i = Some r.
Proof.
  unfold flushdb. rewrite save_database.
  destruct (decide (0 < max_age options)) as [Hpos|Hneg];
    [|by rewrite prune_skipped by lia].
  destruct (days_before E (clock_reads st) (max_age options))
    as [cutoff|] eqn:Hcut; [|by rewrite prune_out_of_range].
  rewrite (prune_lookup _ _ cutoff) by done.
  destruct (database st !! i) as [r0|]; simpl; [|done].
  destruct (keep _ r0); [|done]. done.
Qed.


End Retention.



(** ** The image attached to a payload *)

Section Attachments.

Variable E : collaborators.

Lemma build_payload_Ok config fmeta entry payload :
  build_payload E config fmeta entry = Ok payload →
  ∃ md_text images t l fl ft text embed',
    get_content E entry = Ok (md_text, images)
    ∧ title entry = Some t ∧ link entry = Some l
    ∧ feed_link fmeta = Some fl ∧ feed_title fmeta = Some ft
    ∧ attach_images E config entry images
        {| embed_type := "rich"; embed_url := l; author_url := fl;
           author_name := to_markdown E ft; description := text;
           image := None; thumbnail := None |} = Ok embed'
    ∧ embeds payload = [embed'].
Proof.
  unfold build_payload. intros H.
  apply result_bind_Ok in H as ([md_text images] & Hget & H).
  destruct (title entry) as [t|]; [|discriminate].
  destruct (link entry) as [l|]; [|discriminate].
  destruct (feed_link fmeta) as [fl|]; [|discriminate].
  destruct (feed_title fmeta) as [ft|]; [|discriminate].
  simpl in H. apply result_bind_Ok in H as (embed' & Hatt & H).
  injection H as <-. simpl. do 8 eexists. repeat split; first [done | eassumption].
Qed.

Lemma attach_item_plain embed item :
  ¬ is_picture item → ∀ embed', attach_item E embed item = Ok embed' → embed' = embed.
Proof.
  unfold attach_item, is_picture. intros Hno embed' H.
  destruct (medium item) as [m|]; [|discriminate]. simpl in H.
  destruct (String.eqb_spec m "image") as [->|_]; [tauto|].
  destruct (String.eqb_spec m "thumbnail") as [->|_]; [tauto|].
  congruence.
Qed.

Lemma attach_media_plain items :
  Forall (λ item, ¬ is_picture item) items →
  ∀ embed embed', attach_media E items embed = Ok embed' → embed' = embed.
Proof.
  induction 1 as [|item items Hitem _ IH]; intros embed embed' H; simpl in H.
  - congruence.
  - apply result_bind_Ok in H as (e1 & H1 & H2).
    apply (attach_item_plain _ _ Hitem) in H1. subst e1. by apply IH.
Qed.

(** A slot that is taken stays as it is; a slot that is free is filled
    from the first item of its medium. *)
Lemma attach_media_slots items :
  ∀ embed embed', attach_media E items embed = Ok embed' →
    (∀ a, image embed = Some a → image embed' = Some a)
    ∧ (∀ a, thumbnail embed = Some a → thumbnail embed' = Some a)
    ∧ (image embed = None → slot_filled_from E "image" items (image embed'))
    ∧ (thumbnail embed = None →
       slot_filled_from E "thumbnail" items (thumbnail embed')).
Proof.
  unfold slot_filled_from, first_of_medium.
  induction items as [|item items IH]; intros embed embed' H; simpl in H.
  - injection H as <-. simpl. by eauto.
  - apply result_bind_Ok in H as (e1 & H1 & H2).
    destruct (IH _ _ H2) as (Ii & It & Fi & Ft). clear IH H2.
    unfold attach_item in H1.
    destruct (medium item) as [m|] eqn:Hm; [|discriminate]. simpl in H1.
    simpl. rewrite Hm.
    destruct (String.eqb_spec m "image") as [->|Hni].
    { rewrite (bool_decide_eq_true_2 (Some "image" = Some "image")) by done.
      rewrite (bool_decide_eq_false_2 (Some "image" = Some "thumbnail"))
        by discriminate.
      destruct (image embed) as [a0|] eqn:Hi.
      - injection H1 as <-. rewrite Hi in Ii.
        repeat split; [by intros a [= <-]; apply Ii | done | done | done].
      - apply result_bind_Ok in H1 as (a & Ha & H1). injection H1 as <-.
        simpl in *. repeat split; [done | done | | done].
        intros _. exists a. split; [done|]. by apply Ii. }
    destruct (String.eqb_spec m "thumbnail") as [->|Hnt].
    { rewrite (bool_decide_eq_false_2 (Some "thumbnail" = Some "image"))
        by discriminate.
      rewrite (bool_decide_eq_true_2 (Some "thumbnail" = Some "thumbnail"))
        by done.
      destruct (thumbnail embed) as [a0|] eqn:Ht.
      - injection H1 as <-. rewrite Ht in It.
        repeat split; [done | by intros a [= <-]; apply It | done | done].
      - apply result_bind_Ok in H1 as (a & Ha & H1). injection H1 as <-.
        simpl in *. repeat split; [done | done | done |].
        intros _. exists a. split; [done|]. by apply It. }
    injection H1 as <-.
    rewrite (bool_decide_eq_false_2 (Some m = Some "image")) by congruence.
    rewrite (bool_decide_eq_false_2 (Some m = Some "thumbnail")) by congruence.
    done.
Qed.

End Attachments.

(** What [process_entry] adds to the log of requests: nothing, or one
    request that carries the payload built for the entry. *)
Lemma process_entry_posts E self options config fmeta entry r st :
  posts (process_entry E self options config fmeta entry r st).1.2 = posts st
  ∨ ∃ payload,
      build_payload E config fmeta entry = Ok payload
      ∧ dry_run options = false
      ∧ posts (process_entry E self options config fmeta entry r st).1.2
        = posts st
          ++ [{| att_entry := entry; att_webhook := webhook self;
                 att_payload := payload;
                 att_result := requests_post E (length (posts st))
                                 (webhook self) payload |}].
Proof.
  unfold process_entry.
  destruct (build_payload E config fmeta entry) as [payload|err]; [|by left].
  destruct (dry_run options) eqn:Hdry; [by left|].
  right. exists payload. split; [done|]. split; [done|].
  destruct (requests_post E _ _ payload) as [status_code body|err]; [|done].
  by destruct (is_success status_code).
Qed.

(** C10. When the entry has a structured media list and no item of it is
    of medium [image] or [thumbnail], the payload built for the entry
    carries no image at all, whatever the inline images and the feed
    configuration are; so does every request [process_entry] sends for
    it. *)
Theorem media_list_suppresses_inline_images
        E self options config fmeta entry items r st :
  media_content entry = Some items →
  Forall (λ item, ¬ is_picture item) items →
  (∀ payload, build_payload E config fmeta entry = Ok payload →
              Forall no_image (embeds payload))
  ∧ (∀ a, a ∈ posts (process_entry E self options config fmeta entry r st).1.2 →
          a ∈ posts st ∨ Forall no_image (embeds (att_payload a))).
Proof.
  intros Hmedia Hplain.
  assert (∀ payload, build_payload E config fmeta entry = Ok payload →
                     Forall no_image (embeds payload)) as Hbuild.
  { intros payload H.
    apply build_payload_Ok in H
      as (md & images & t & l & fl & ft & text & embed' & _ & _ & _ & _ & _ & Hatt & ->).
    unfold attach_images in Hatt. rewrite Hmedia in Hatt.
    destruct (include_image config).
    - apply (attach_media_plain _ _ Hplain) in Hatt. subst embed'.
      by repeat constructor.
    - injection Hatt as <-. by repeat constructor. }
  split; [done|]. intros a Ha.
  destruct (process_entry_posts E self options config fmeta entry r st)
    as [Heq | (payload & Hp & _ & Heq)]; rewrite Heq in Ha; [by left|].
  apply elem_of_app in Ha as [Ha|Ha]; [by left|].
  apply list_elem_of_singleton in Ha. subst a. right. simpl. by apply Hbuild.
Qed.

(** C9, as the code has it.  The embed of a payload that is built holds:
    with image inclusion enabled and a structured media list, under
    [image] the first item of medium [image] and under [thumbnail] the
    first item of medium [thumbnail], each with its optional numeric
    height and width, the inline images being ignored; with image
    inclusion enabled and no media list, the first inline image as the
    thumbnail and nothing else; with image inclusion disabled, nothing.
    At most one image per slot, hence at most two. *)
Theorem image_attachment_policy E config fmeta entry payload :
  build_payload E config fmeta entry = Ok payload →
  ∃ embed md_text images,
    embeds payload = [embed]
    ∧ get_content E entry = Ok (md_text, images)
    ∧ (attached_images embed ≤ 2)%nat
    ∧ if include_image config then
        match media_content entry with
        | Some items =>
            slot_filled_from E "image" items (image embed)
            ∧ slot_filled_from E "thumbnail" items (thumbnail embed)
        | None =>
            image embed = None
            ∧ thumbnail embed = InlineThumbnail <$> head images
        end
      else no_image embed.
Proof.
  intros H.
  apply build_payload_Ok in H
    as (md & images & t & l & fl & ft & text & embed' & Hget & _ & _ & _ & _ & Hatt & ->).
  exists embed', md, images. split; [done|]. split; [done|].
  split. { unfold attached_images. destruct (image embed'), (thumbnail embed'); lia. }
  unfold attach_images in Hatt.
  destruct (include_image config).
  - destruct (media_content entry) as [items|].
    + apply attach_media_slots in Hatt as (_ & _ & Hi & Ht). simpl in *. auto.
    + destruct images; injection Hatt as <-; done.
  - injection Hatt as <-. done.
Qed.

(** C9, as stated, fails: an entry whose media list has an image and a
    thumbnail gets both attached. *)
Lemma two_images_attached :
  ∃ payload,
    build_payload (Sample.world []) Sample.config Sample.fmeta MediaSample.both
    = Ok payload
    ∧ (image <$> embeds payload)
      = [Some (MediaImage "http://x/big.png" (Some 600) (Some 400))]
    ∧ (thumbnail <$> embeds payload)
      = [Some (MediaImage "http://x/small.png" None None)]
    ∧ ¬ Forall (λ embed, (attached_images embed ≤ 1)%nat) (embeds payload).
Proof.
  eexists. split; [vm_compute; reflexivity|].
  split; [reflexivity|]. split; [reflexivity|].
  intros H. apply Forall_cons_1 in H as [H _]. vm_compute in H. lia.
Qed.

Lemma image_attachment_policy_witness :
  ∃ payload embed,
    build_payload (Sample.world []) Sample.config Sample.fmeta
                  (Sample.entry "e1") = Ok payload
    ∧ embeds payload = [embed]
    ∧ image embed = None
    ∧ thumbnail embed = Some (InlineThumbnail "http://x/a.png").
Proof.
  eexists.
  destruct (image_attachment_policy (Sample.world []) Sample.config
              Sample.fmeta (Sample.entry "e1") _ eq_refl)
    as (embed & md & images & Hembeds & Hget & _ & Himage & Hthumb).
  exists embed. split; [reflexivity|]. split; [exact Hembeds|].
  vm_compute in Hget. injection Hget as <- <-.
  split; [exact Himage | exact Hthumb].
Defined.

Lemma media_list_suppresses_inline_images_witness :
  get_content (Sample.world []) MediaSample.video
  = Ok ("Hello world", ["http://x/a.png"])
  ∧ ∃ payload,
      build_payload (Sample.world []) Sample.config Sample.fmeta
                    MediaSample.video = Ok payload
      ∧ Forall no_image (embeds payload).
Proof.
  split; [reflexivity|]. eexists. split; [reflexivity|].
  refine (proj1 (media_list_suppresses_inline_images (Sample.world [])
                   Sample.bot Sample.live Sample.config Sample.fmeta
                   MediaSample.video _ empty_row Sample.start eq_refl _) _ eq_refl).
  repeat constructor. intros [H|H]; discriminate H.
Defined.

(** ** One step of the per-entry loop *)

(** Case analysis along the branches of [process_feed_entry] and of the
    [process_entry] it calls. *)
Ltac step_cases :=
  unfold process_feed_entry, process_entry, now;
  repeat match goal with
    | |- context [match id ?e with _ => _ end] => destruct (id e) eqn:?
    | |- context [match link ?e with _ => _ end] => destruct (link e) eqn:?
    | |- context [if truthy ?s then _ else _] => destruct (truthy s) eqn:?
    | |- context [if populate ?o then _ else _] => destruct (populate o) eqn:?
    | |- context [match build_payload ?E ?c ?f ?e with _ => _ end] =>
        destruct (build_payload E c f e) eqn:?
    | |- context [if dry_run ?o then _ else _] => destruct (dry_run o) eqn:?
    | |- context [match requests_post ?E ?k ?w ?p with _ => _ end] =>
        destruct (requests_post E k w p) eqn:?
    | |- context [if is_success ?c then _ else _] => destruct (is_success c) eqn:?
    | |- context [match errors ?r with _ => _ end] => destruct (errors r) eqn:?
    end;
  cbn [fst snd database fs posts fetches clock_reads set_row set_database tick
       log_post set_sent set_last_seen set_url set_errors set_last_exception
       sent errors last_exception url last_seen] in *.

Section Step.

Variable E : collaborators.
Variable self : DiscordRSS.
Variable options : Options.
Variable config : FeedConfig.
Variable fmeta : FeedMeta.

Local Abbreviation step := (process_feed_entry E self options config fmeta).
Local Abbreviation run := (process_entries E self options config fmeta).


Lemma step_fetches entry st : fetches (step entry st).1 = fetches st.
Proof. step_cases; reflexivity. Qed.

(** A step touches the record of its own entry only. *)
Lemma step_other entry st j :
  id entry ≠ Some j → database (step entry st).1 !! j = database st !! j.
Proof.
  intros Hne. step_cases; try reflexivity;
    rewrite ?lookup_insert_ne by congruence; reflexivity.
Qed.

(** A step removes no record. *)
Lemma step_keeps_records entry st j :
  is_Some (database st !! j) → is_Some (database (step entry st).1 !! j).
Proof.
  intros Hj. destruct (decide (id entry = Some j)) as [Heq|Hne].
  - revert Heq. step_cases; intros [= ->]; rewrite ?lookup_insert_eq; eauto.
  - by rewrite step_other.
Qed.

(** A step makes no request, or one, for its own entry. *)
Lemma step_posts entry st :
  posts (step entry st).1 = posts st
  ∨ ∃ payload,
      dry_run options = false ∧ populate options = false
      ∧ build_payload E config fmeta entry = Ok payload
      ∧ posts (step entry st).1
        = posts st
          ++ [{| att_entry := entry; att_webhook := webhook self;
                 att_payload := payload;
                 att_result := requests_post E (length (posts st))
                                 (webhook self) payload |}].
Proof.
  step_cases; try (by left); right; eexists; repeat split; congruence.
Qed.

(** An entry that is marked sent is skipped: no request, same [sent]. *)
Lemma step_delivered entry st i :
  id entry = Some i → truthy (sent_at i st) = true →
  posts (step entry st).1 = posts st
  ∧ sent_at i (step entry st).1 = sent_at i st.
Proof.
  unfold sent_at. intros Hid Hsent. revert Hsent.
  destruct (database st !! i) as [r|] eqn:Hr; simpl; [|discriminate].
  intros Hsent.
  unfold process_feed_entry, now. rewrite Hid, Hr. simpl.
  destruct (link entry) as [l|]; simpl.
  - rewrite Hsent. simpl. by rewrite lookup_insert_eq.
  - by rewrite lookup_insert_eq.
Qed.

(** The [sent] value of any record after a step: as before, or newly set
    to [True] or to the time of the step. *)
Lemma step_sent entry st j :
  sent_at j (step entry st).1 = sent_at j st
  ∨ (truthy (sent_at j st) = false
     ∧ (sent_at j (step entry st).1 = Some (SentFlag true)
        ∨ sent_at j (step entry st).1
          = Some (SentAt (clock E (clock_reads st))))).
Proof.
  destruct (decide (id entry = Some j)) as [Heq|Hne];
    [|left; unfold sent_at; by rewrite step_other].
  unfold sent_at. revert Heq.
  step_cases; intros [= ->]; rewrite ?lookup_insert_eq; simpl;
    destruct (database st !! j) as [r|] eqn:Hr; simpl in *; auto.
Qed.

End Step.

(** ** Delivery outcomes *)

Section Delivery.

Variable E : collaborators.
Variable self : DiscordRSS.
Variable options : Options.
Variable config : FeedConfig.
Variable fmeta : FeedMeta.

Local Abbreviation step := (process_feed_entry E self options config fmeta).
Local Abbreviation run := (process_entries E self options config fmeta).

(** C2.  A delivery attempt for an entry that is not marked sent
    (populate and dry-run off, payload built, webhook answered with
    [status_code] and [body]).  When the status is in [200,300) the record
    gets [sent] set to the time of the step, and its error list and
    [last_exception] stay as they were.  For any other status the code
    leaves [sent] as it was, but appends nothing to the error list: the
    list is created empty when it was missing and is otherwise left alone,
    and the [AttributeError] of [list.push] is stored as
    [last_exception]. *)
Theorem delivery_outcome entry i l payload status_code body st :
  id entry = Some i → link entry = Some l →
  truthy (sent (found i st)) = false →
  populate options = false → dry_run options = false →
  build_payload E config fmeta entry = Ok payload →
  requests_post E (length (posts st)) (webhook self) payload
  = Response status_code body →
  ∃ r', database (step entry st).1 !! i = Some r'
        ∧ if is_success status_code
          then sent r' = Some (SentAt (clock E (clock_reads st)))
               ∧ errors r' = errors (found i st)
               ∧ last_exception r' = last_exception (found i st)
          else sent r' = sent (found i st)
               ∧ errors r' = Some (default [] (errors (found i st)))
               ∧ last_exception r'
                 = Some {| exc_error := AttributeError "push";
                           exc_time := clock E (clock_reads st) |}.
Proof.
  intros Hid Hlink Hsent Hpop Hdry Hbuild Hpost.
  unfold process_feed_entry, process_entry, now, found in *.
  rewrite Hid, Hlink. simpl. rewrite Hsent, Hpop, Hbuild, Hdry. simpl.
  rewrite Hpost.
  destruct (is_success status_code); simpl.
  - eexists. rewrite lookup_insert_eq. split; [reflexivity|]. done.
  - destruct (errors (default empty_row (database st !! i))) as [errs|] eqn:Herr;
      simpl; eexists; rewrite lookup_insert_eq; (split; [reflexivity|]);
      simpl; rewrite ?Herr; done.
Qed.

Lemma get_content_raises_build entry err :
  get_content E entry = Raise err →
  build_payload E config fmeta entry = Raise err.
Proof. intros H. unfold build_payload. by rewrite H. Qed.

(** C6.  A failure raised while an unsent entry is processed (populate
    off, id and link present) does not leave the loop body: the step ends
    normally, the record of the entry holds the exception and the time of
    the step under [last_exception], its [sent] is as it was (not
    truthy), and the loop goes on with the entries that follow. *)
Theorem entry_failure_is_recorded entry i l err st :
  id entry = Some i → link entry = Some l →
  truthy (sent (found i st)) = false →
  populate options = false →
  fails_with E self options config fmeta entry st err →
  ∃ st' r',
    step entry st = (st', Ok ())
    ∧ database st' !! i = Some r'
    ∧ last_exception r'
      = Some {| exc_error := err; exc_time := clock E (clock_reads st) |}
    ∧ sent r' = sent (found i st)
    ∧ ∀ rest, run (entry :: rest) st = run rest st'.
Proof.
  intros Hid Hlink Hsent Hpop Hfail.
  assert (∃ st' r',
    step entry st = (st', Ok ())
    ∧ database st' !! i = Some r'
    ∧ last_exception r'
      = Some {| exc_error := err; exc_time := clock E (clock_reads st) |}
    ∧ sent r' = sent (found i st)) as (st' & r' & Hstep & Hr' & Hexc & Hs).
  { unfold process_feed_entry, process_entry, now, found in *.
    rewrite Hid, Hlink. simpl. rewrite Hsent, Hpop.
    destruct Hfail as [Hget | Hbuild | payload Hbuild Hdry Hpost].
    - rewrite (get_content_raises_build _ _ Hget). simpl.
      do 2 eexists. split; [reflexivity|]. simpl.
      rewrite lookup_insert_eq. done.
    - rewrite Hbuild. simpl.
      do 2 eexists. split; [reflexivity|]. simpl.
      rewrite lookup_insert_eq. done.
    - rewrite Hbuild, Hdry. simpl. rewrite Hpost. simpl.
      do 2 eexists. split; [reflexivity|]. simpl.
      rewrite lookup_insert_eq. done. }
  exists st', r'. repeat split; try assumption.
  intros rest. simpl. by rewrite Hstep.
Qed.

End Delivery.

(** A webhook that accepts, and one that answers 429. *)
Lemma delivery_outcome_witness :
  (∃ r', database (process_feed_entry (Sample.world [Response 204 ""])
                     Sample.bot Sample.live Sample.config Sample.fmeta
                     (Sample.entry "e1") Sample.start).1 !! "e1" = Some r'
         ∧ sent r' = Some (SentAt Sample.t0)
         ∧ errors r' = None ∧ last_exception r' = None)
  ∧ (∃ r', database (process_feed_entry
                       (Sample.world [Response 429 "rate limited"])
                       Sample.bot Sample.live Sample.config Sample.fmeta
                       (Sample.entry "e1") Sample.start).1 !! "e1" = Some r'
           ∧ sent r' = None
           ∧ errors r' = Some []
           ∧ last_exception r'
             = Some {| exc_error := AttributeError "push";
                       exc_time := Sample.t0 |}).
Proof.
  split.
  - edestruct (delivery_outcome (Sample.world [Response 204 ""]) Sample.bot
                 Sample.live Sample.config Sample.fmeta (Sample.entry "e1")
                 "e1" "http://x/" sample_payload 204 "" Sample.start) as (r' & Hr & H);
      [reflexivity | reflexivity | reflexivity | reflexivity | reflexivity
      | vm_compute; reflexivity | vm_compute; reflexivity |].
    exists r'. split; [exact Hr | exact H].
  - edestruct (delivery_outcome (Sample.world [Response 429 "rate limited"])
                 Sample.bot Sample.live Sample.config Sample.fmeta
                 (Sample.entry "e1") "e1" "http://x/" sample_payload 429 "rate limited"
                 Sample.start) as (r' & Hr & H);
      [reflexivity | reflexivity | reflexivity | reflexivity | reflexivity
      | vm_compute; reflexivity | vm_compute; reflexivity |].
    exists r'. split; [exact Hr | exact H].
Defined.

Lemma entry_failure_is_recorded_witness :
  (∃ r', database FailureSample.after_untitled !! "e0" = Some r'
         ∧ last_exception r'
           = Some {| exc_error := AttributeError "title";
                     exc_time := Sample.t0 |}
         ∧ sent r' = None)
  ∧ process_entries (Sample.world [Response 204 ""]) Sample.bot Sample.live
      Sample.config Sample.fmeta [FailureSample.untitled; Sample.entry "e1"]
      Sample.start
    = process_entries (Sample.world [Response 204 ""]) Sample.bot Sample.live
        Sample.config Sample.fmeta [Sample.entry "e1"]
        FailureSample.after_untitled.
Proof.
  destruct (entry_failure_is_recorded (Sample.world [Response 204 ""])
              Sample.bot Sample.live Sample.config Sample.fmeta
              FailureSample.untitled "e0" "http://x/0"
              (AttributeError "title") Sample.start
              eq_refl eq_refl eq_refl eq_refl)
    as (st' & r' & Hstep & Hr & Hexc & Hsent & Hnext).
  { apply fails_in_payload. vm_compute. reflexivity. }
  assert (st' = FailureSample.after_untitled) as ->.
  { unfold FailureSample.after_untitled. by rewrite Hstep. }
  split.
  - exists r'. split; [exact Hr|]. split; [exact Hexc | exact Hsent].
  - apply Hnext.
Defined.

(** ** Invariants of the loops *)

(** A relation between states that every step of the per-entry loop
    respects is respected by the loop, whether it ends normally or is left
    by an exception. *)
Lemma process_entries_invariant E self options (R : relation state) :
  Reflexive R → Transitive R →
  (∀ config fmeta entry st,
     R st (process_feed_entry E self options config fmeta entry st).1) →
  ∀ config fmeta es st,
    R st (process_entries E self options config fmeta es st).1.
Proof.
  intros Hrefl Htrans Hstep config fmeta es.
  induction es as [|entry es IH]; intros st; simpl; [done|].
  pose proof (Hstep config fmeta entry st) as H1.
  destruct (process_feed_entry E self options config fmeta entry st)
    as [st1 [[]|err]]; simpl in *; [|done].
  by transitivity st1.
Qed.

Lemma process_feed_invariant E self options (R : relation state) :
  Reflexive R → Transitive R →
  (∀ st, R st (count_fetch st)) →
  (∀ config fmeta entry st,
     R st (process_feed_entry E self options config fmeta entry st).1) →
  ∀ config st, R st (process_feed E self options config st).1.
Proof.
  intros Hrefl Htrans Hfetch Hstep config st. unfold process_feed.
  destruct (feedparser_parse E (fetches st) (feed_url config)) as [data|err];
    simpl; [|done].
  destruct (bozo data).
  - destruct (error data), (status data); simpl; done.
  - transitivity (count_fetch st); [done|].
    by apply process_entries_invariant.
Qed.

Lemma process_feeds_invariant E self options (R : relation state) :
  Reflexive R → Transitive R →
  (∀ st, R st (count_fetch st)) →
  (∀ config fmeta entry st,
     R st (process_feed_entry E self options config fmeta entry st).1) →
  ∀ configs st, R st (process_feeds E self options configs st).
Proof.
  intros Hrefl Htrans Hfetch Hstep configs.
  induction configs as [|config configs IH]; intros st; simpl; [done|].
  transitivity (process_feed E self options config st).1; [|done].
  by apply process_feed_invariant.
Qed.

Lemma attempts_for_app i l k :
  attempts_for i (l ++ k) = (attempts_for i l + attempts_for i k)%nat.
Proof. unfold attempts_for. by rewrite filter_app, length_app. Qed.

Lemma sent_found i st : sent (found i st) = sent_at i st.
Proof. unfold found, sent_at. by destruct (database st !! i). Qed.

(** A request that is answered with a status in [200,300) marks the
    entry sent, with the time of the step. *)
Lemma step_success_marks_sent E self options config fmeta entry i l payload
      status_code body st :
  id entry = Some i → link entry = Some l →
  truthy (sent_at i st) = false →
  populate options = false → dry_run options = false →
  build_payload E config fmeta entry = Ok payload →
  requests_post E (length (posts st)) (webhook self) payload
  = Response status_code body →
  is_success status_code = true →
  sent_at i (process_feed_entry E self options config fmeta entry st).1
  = Some (SentAt (clock E (clock_reads st))).
Proof.
  intros Hid Hlink Hsent Hpop Hdry Hbuild Hpost Hok.
  rewrite <- sent_found in Hsent. unfold found in Hsent.
  unfold sent_at, process_feed_entry, process_entry, now.
  rewrite Hid, Hlink. simpl. rewrite Hsent, Hpop, Hbuild, Hdry. simpl.
  rewrite Hpost, Hok. simpl. by rewrite lookup_insert_eq.
Qed.

Lemma app_nil_inv {A} (l k : list A) : l = l ++ k → k = [].
Proof.
  intros H. symmetry. apply (app_inv_head l). by rewrite app_nil_r.
Qed.

(** ** At most one delivery *)

Section Idempotence.

Variable E : collaborators.
Variable self : DiscordRSS.

(** The current time is never the epoch itself, so that a timestamp
    stored under [sent] is truthy. *)
Hypothesis clock_nonzero : ∀ k, clock E k ≠ 0.

Lemma delivers_once_new_posts i st st' :
  delivers_once i st st' →
  delivers_once i st st'
  ∧ posts st' = posts st ++ new_posts st st'.
Proof.
  intros H. split; [done|]. destruct H as (delta & Hd & _).
  unfold new_posts. by rewrite Hd, drop_app_length.
Qed.

Lemma delivers_once_idle i st st' :
  posts st' = posts st → database st' = database st → delivers_once i st st'.
Proof.
  intros Hp Hd. exists []. rewrite app_nil_r. split; [done|].
  unfold sent_at, attempts_for. rewrite Hd. simpl. split; [done|].
  intros _. split; [lia|discriminate].
Qed.

Global Instance delivers_once_refl i : Reflexive (delivers_once i).
Proof. intros st. by apply delivers_once_idle. Qed.

Global Instance delivers_once_trans i : Transitive (delivers_once i).
Proof.
  intros st st1 st2 (d1 & Hp1 & HA1 & HB1) (d2 & Hp2 & HA2 & HB2).
  exists (d1 ++ d2). split; [by rewrite Hp2, Hp1, app_assoc|].
  rewrite attempts_for_app. split.
  - intros Hsent. destruct (HA1 Hsent) as [Hc1 Hs1].
    rewrite <- Hs1 in Hsent. destruct (HA2 Hsent) as [Hc2 Hs2].
    split; [lia | congruence].
  - intros Hall. apply Forall_app in Hall as [Hall1 Hall2].
    destruct (HB1 Hall1) as [Hle1 Hone1], (HB2 Hall2) as [Hle2 Hone2].
    destruct (decide (attempts_for i d1 = 1%nat)) as [H1|H1].
    + destruct (HA2 (Hone1 H1)) as [Hc2 Hs2].
      split; [lia|]. intros _. rewrite Hs2. by apply Hone1.
    + split; [lia|]. intros Hsum. apply Hone2. lia.
Qed.

Lemma delivers_once_fetch i st : delivers_once i st (count_fetch st).
Proof. by apply delivers_once_idle. Qed.

Lemma delivers_once_step i options config fmeta entry st :
  delivers_once i st (process_feed_entry E self options config fmeta entry st).1.
Proof.
  set (st' := (process_feed_entry E self options config fmeta entry st).1).
  destruct (decide (id entry = Some i)) as [Hid|Hid].
  - destruct (truthy (sent_at i st)) eqn:Hsent.
    + destruct (step_delivered E self options config fmeta entry st i Hid Hsent)
        as [Hposts Hs].
      exists []. rewrite app_nil_r. split; [done|]. split; [done|].
      intros _. fold st' in Hs. rewrite Hs, Hsent. unfold attempts_for. simpl.
      split; [lia|done].
    + destruct (step_posts E self options config fmeta entry st)
        as [Hposts | (payload & Hdry & Hpop & Hbuild & Hposts)]; fold st' in Hposts.
      * exists []. rewrite app_nil_r. split; [done|]. split; [congruence|].
        intros _. unfold attempts_for. simpl. split; [lia|discriminate].
      * eexists. split; [exact Hposts|]. split; [congruence|].
        unfold attempts_for. rewrite filter_cons_True by done. simpl.
        intros Hall. split; [lia|]. intros _.
        apply Forall_cons_1 in Hall as [Ha _].
        destruct (Ha Hid) as (status_code & body & Hres & Hok). simpl in Hres.
        destruct (link entry) as [l|] eqn:Hlink.
        -- unfold st'.
           rewrite (step_success_marks_sent E self options config fmeta entry
                      i l payload status_code body st Hid Hlink Hsent Hpop
                      Hdry Hbuild Hres Hok).
           apply truthy_SentAt, clock_nonzero.
        -- exfalso. revert Hposts. subst st'.
           unfold process_feed_entry. rewrite Hid, Hlink. simpl.
           intros Hposts. apply app_nil_inv in Hposts. discriminate.
  - assert (sent_at i st' = sent_at i st) as Hs.
    { unfold sent_at, st'. by rewrite step_other. }
    assert (∃ delta, posts st' = posts st ++ delta
                     ∧ attempts_for i delta = 0%nat) as (delta & Hposts & Hc).
    { destruct (step_posts E self options config fmeta entry st)
        as [Hposts | (payload & _ & _ & _ & Hposts)]; fold st' in Hposts.
      - exists []. by rewrite app_nil_r.
      - eexists. split; [exact Hposts|].
        unfold attempts_for. by rewrite filter_cons_False. }
    exists delta. split; [done|]. split; [done|].
    intros _. rewrite Hc, Hs. split; [lia|discriminate].
Qed.

(** All the feeds, fetched and processed. *)
Lemma delivers_once_feeds i options configs st :
  delivers_once i st (process_feeds E self options configs st).
Proof.
  apply process_feeds_invariant; try apply _.
  - apply delivers_once_fetch.
  - intros. apply delivers_once_step.
Qed.

(** C1.  An entry whose record has a truthy [sent] is processed without a
    request and keeps its [sent].  Hence, for two runs over the feeds (the
    second one starting from a ledger that holds the record the first run
    left for the entry id [i], as it does after a flush that keeps the
    record): if the first run made a request for [i] and its requests for
    [i] were answered 2xx, then the two runs together made exactly one
    request for [i]. *)
Theorem delivered_at_most_once i :
  (∀ options config fmeta entry st,
     id entry = Some i → truthy (sent_at i st) = true →
     new_posts st (process_feed_entry E self options config fmeta entry st).1
     = []
     ∧ sent_at i (process_feed_entry E self options config fmeta entry st).1
       = sent_at i st)
  ∧ (∀ options1 configs1 options2 configs2 st st2,
       let run1 := process_feeds E self options1 configs1 st in
       let run2 := process_feeds E self options2 configs2 st2 in
       (∃ a, a ∈ new_posts st run1 ∧ id (att_entry a) = Some i) →
       all_answered_2xx i (new_posts st run1) →
       database st2 !! i = database run1 !! i →
       attempts_for i (new_posts st run1 ++ new_posts st2 run2) = 1%nat).
Proof.
  split.
  - intros options config fmeta entry st Hid Hsent.
    destruct (step_delivered E self options config fmeta entry st i Hid Hsent)
      as [Hposts Hs].
    split; [|done]. unfold new_posts. rewrite Hposts. apply drop_all.
  - intros options1 configs1 options2 configs2 st st2 run1 run2 Hsome Hall Hsame.
    destruct (delivers_once_new_posts i st run1
                (delivers_once_feeds i options1 configs1 st))
      as [(d1 & Hp1 & _ & HB1) Hn1].
    destruct (delivers_once_new_posts i st2 run2
                (delivers_once_feeds i options2 configs2 st2))
      as [(d2 & Hp2 & HA2 & _) Hn2].
    assert (d1 = new_posts st run1) as ->.
    { apply (app_inv_head (posts st)). by rewrite <- Hp1. }
    assert (d2 = new_posts st2 run2) as ->.
    { apply (app_inv_head (posts st2)). by rewrite <- Hp2. }
    destruct (HB1 Hall) as [Hle Hone].
    assert (attempts_for i (new_posts st run1) = 1%nat) as Hc1.
    { destruct Hsome as (a & Ha & Hid).
      assert (a ∈ filter (λ a, id (att_entry a) = Some i) (new_posts st run1))
        as Hin by (by apply list_elem_of_filter).
      unfold attempts_for in *.
      destruct (filter _ (new_posts st run1)); [by apply elem_of_nil in Hin|].
      simpl in *. lia. }
    assert (truthy (sent_at i st2) = true) as Hsent2.
    { unfold sent_at. rewrite Hsame. by apply Hone. }
    destruct (HA2 Hsent2) as [Hc2 _].
    rewrite attempts_for_app. lia.
Qed.

End Idempotence.

Lemma sample_clock_nonzero es answers k : clock (Sample.online es answers) k ≠ 0.
Proof. simpl. unfold Sample.t0. lia. Qed.

Lemma delivered_at_most_once_witness :
  attempts_for "e1"
    (new_posts Sample.start TwoRuns.run1
     ++ new_posts TwoRuns.flushed1 TwoRuns.run2)
  = 1%nat.
Proof.
  refine (proj2 (delivered_at_most_once TwoRuns.W Sample.bot
                   (sample_clock_nonzero _ _) "e1")
            Sample.live (feeds Sample.bot) Sample.live (feeds Sample.bot)
            Sample.start TwoRuns.flushed1 _ _ _).
  - eexists. split; [|shelve]. vm_compute. apply list_elem_of_here.
    Unshelve. reflexivity.
  - vm_compute. apply Forall_cons. split; [|apply Forall_nil_2].
    intros _. exists 204, "". split; reflexivity.
  - vm_compute. reflexivity.
Defined.

(** ** [sent] only moves forward *)

Global Instance sent_written_refl E : Reflexive (sent_written E).
Proof. intros s. by left. Qed.

Global Instance sent_written_trans E : Transitive (sent_written E).
Proof.
  intros s1 s2 s3 [->|[H1 H2]] [->|[H3 H4]]; unfold sent_written; auto.
Qed.

Lemma sent_written_forward E s s' :
  (∀ k, clock E k ≠ 0) → sent_written E s s' → sent_forward s s'.
Proof.
  intros Hclock [->|[Hs [->|[k ->]]]]; [by left | by right |].
  right. split; [done|]. apply truthy_SentAt, Hclock.
Qed.

Section Forward.

Variable E : collaborators.
Variable self : DiscordRSS.

Global Instance grows_refl : Reflexive (grows E).
Proof. intros st j. split; [reflexivity|done]. Qed.

Global Instance grows_trans : Transitive (grows E).
Proof.
  intros st1 st2 st3 H12 H23 j.
  destruct (H12 j) as [Hs12 Hk12], (H23 j) as [Hs23 Hk23].
  split; [by transitivity (sent_at j st2) | auto].
Qed.

Lemma grows_fetch st : grows E st (count_fetch st).
Proof. intros j. split; [reflexivity|done]. Qed.

Lemma grows_step options config fmeta entry st :
  grows E st (process_feed_entry E self options config fmeta entry st).1.
Proof.
  intros j. split; [|apply step_keeps_records].
  destruct (step_sent E self options config fmeta entry st j)
    as [Hs | [Hf [Hs|Hs]]]; [by left | right; split; [done | by left] | right].
  split; [done|]. right. by eexists.
Qed.

Lemma grows_feeds options configs st :
  grows E st (process_feeds E self options configs st).
Proof.
  apply process_feeds_invariant; try apply _.
  - apply grows_fetch.
  - intros. apply grows_step.
Qed.

(** A record that is still there after a flush is the record that was
    there before. *)
Lemma flushdb_sent options st j :
  is_Some (database (flushdb E self options st).1 !! j) →
  sent_at j (flushdb E self options st).1 = sent_at j st.
Proof.
  intros [r Hr]. unfold sent_at. rewrite Hr.
  by rewrite (flushdb_lookup_Some E self options st j r Hr).
Qed.

Lemma prune_is_flushdb options st :
  database (prune E options st) = database (flushdb E self options st).1.
Proof. unfold flushdb. by rewrite save_database. Qed.

(** One operation: if the record exists before and after, its [sent] was
    written only if it was not truthy. *)
Lemma perform_written op st j :
  is_Some (database st !! j) →
  is_Some (database (perform E self op st) !! j) →
  sent_written E (sent_at j st) (sent_at j (perform E self op st)).
Proof.
  intros Hbefore Hafter. destruct op; simpl in *.
  - apply grows_step.
  - apply (process_feed_invariant E self options (grows E)); try apply _.
    + apply grows_fetch.
    + intros. apply grows_step.
  - unfold sent_at in *. rewrite prune_is_flushdb in *.
    left. by apply flushdb_sent.
  - unfold sent_at. rewrite save_database. reflexivity.
  - left. by apply flushdb_sent.
  - unfold process in *.
    transitivity (sent_at j (process_feeds E self options (feeds self) st)).
    + apply grows_feeds.
    + left. by apply flushdb_sent.
Qed.

(** C4.  Along any sequence of pipeline operations (processing an entry or
    a feed, pruning, saving, flushing, a whole run), for a record that
    exists before, between and after the operations: [sent] at the end is
    [sent] at the start, or it was not truthy at the start and has been
    set to [True] or to a reading of the clock; so a truthy [sent] is
    still there, unchanged; and with a clock that never reads 0, [sent]
    either stayed or went from not truthy to truthy. *)
Theorem sent_only_moves_forward ops st i :
  alive_through E self i ops st →
  sent_written E (sent_at i st) (sent_at i (perform_all E self ops st))
  ∧ (truthy (sent_at i st) = true →
     sent_at i (perform_all E self ops st) = sent_at i st)
  ∧ ((∀ k, clock E k ≠ 0) →
     sent_forward (sent_at i st) (sent_at i (perform_all E self ops st))).
Proof.
  intros Halive.
  assert (sent_written E (sent_at i st) (sent_at i (perform_all E self ops st)))
    as Hw.
  { revert st Halive. induction ops as [|op ops IH]; intros st Halive; simpl.
    - reflexivity.
    - destruct Halive as [Hhere Hrest].
      transitivity (sent_at i (perform E self op st)).
      + apply perform_written; [done|]. by destruct ops; destruct Hrest.
      + by apply IH. }
  split; [done|]. split.
  - intros Hsent. destruct Hw as [->|[Hno _]]; congruence.
  - intros Hclock. by apply (sent_written_forward E).
Qed.

End Forward.

Lemma sent_only_moves_forward_witness :
  sent_at "e1" TwoRuns.run1 = Some (SentAt (Sample.t0))
  ∧ sent_at "e1" (perform_all TwoRuns.W Sample.bot later_operations TwoRuns.run1)
    = Some (SentAt (Sample.t0))
  ∧ sent_forward (sent_at "e1" TwoRuns.run1)
      (sent_at "e1"
         (perform_all TwoRuns.W Sample.bot later_operations TwoRuns.run1)).
Proof.
  assert (sent_at "e1" TwoRuns.run1 = Some (SentAt (Sample.t0))) as Hsent
      by (vm_compute; reflexivity).
  destruct (sent_only_moves_forward TwoRuns.W Sample.bot later_operations
              TwoRuns.run1 "e1") as (_ & Hstays & Hforward).
  { unfold later_operations. cbn [alive_through].
    repeat match goal with |- _ ∧ _ => split end; try exact I;
      eexists; vm_compute; reflexivity. }
  split; [exact Hsent|]. split.
  - rewrite <- Hsent. apply Hstays. rewrite Hsent. reflexivity.
  - apply Hforward, sample_clock_nonzero.
Defined.

(** ** Dry-run *)

Section DryRun.

Variable E : collaborators.
Variable self : DiscordRSS.
Variable options : Options.
Hypothesis dry : dry_run options = true.

Global Instance rehearses_refl : Reflexive (rehearses options).
Proof. by intros st. Qed.

Global Instance rehearses_trans : Transitive (rehearses options).
Proof.
  intros st1 st2 st3 (Hp1 & Hf1 & Hs1) (Hp2 & Hf2 & Hs2).
  split; [congruence|]. split; [congruence|].
  intros Hpop j. rewrite Hs2, Hs1; done.
Qed.



Lemma prune_frame st :
  posts (prune E options st) = posts st ∧ fs (prune E options st) = fs st.
Proof.
  unfold prune.
  by destruct (0 <? max_age options),
              (days_before E (clock_reads st) (max_age options)).
Qed.



End DryRun.



(** ** Loading the ledger *)

Section Load.

Variable E : collaborators.

Lemma legacy_database_frame lines :
  ∀ db st,
    fs (legacy_database E lines db st).2 = fs st
    ∧ posts (legacy_database E lines db st).2 = posts st
    ∧ clock_reads (legacy_database E lines db st).2
      = (clock_reads st + length lines)%nat.
Proof.
  induction lines as [|line lines IH]; intros db st; simpl.
  - repeat split; lia.
  - destruct (IH (<[Py.strip line := set_last_seen (clock E (clock_reads st))
                                        empty_row]> db) (tick st))
      as (Hf & Hp & Hc).
    rewrite Hf, Hp, Hc. simpl. repeat split; lia.
Qed.

(** A synthesized record stays, or is replaced by a synthesized record. *)
Lemma legacy_database_keeps n0 lines :
  ∀ db st i,
    (∃ k, (n0 ≤ k < clock_reads st)%nat ∧ db !! i = Some (seen_at (clock E k))) →
    ∃ k, (n0 ≤ k < clock_reads (legacy_database E lines db st).2)%nat
         ∧ (legacy_database E lines db st).1 !! i = Some (seen_at (clock E k)).
Proof.
  induction lines as [|line lines IH]; intros db st i (k & Hk & Hi); simpl.
  - eauto.
  - apply IH. simpl.
    destruct (decide (Py.strip line = i)) as [->|Hne].
    + exists (clock_reads st). rewrite lookup_insert_eq. split; [lia|done].
    + exists k. rewrite lookup_insert_ne by done. split; [lia|done].
Qed.

Lemma legacy_database_lines lines :
  ∀ db st line,
    line ∈ lines →
    ∃ k, (clock_reads st ≤ k < clock_reads (legacy_database E lines db st).2)%nat
         ∧ (legacy_database E lines db st).1 !! Py.strip line
           = Some (seen_at (clock E k)).
Proof.
  induction lines as [|line0 lines IH]; intros db st line Hin.
  - by apply elem_of_nil in Hin.
  - simpl. destruct (decide (line ∈ lines)) as [Hlater|Hnot].
    + destruct (IH (<[Py.strip line0 := set_last_seen (clock E (clock_reads st))
                                          empty_row]> db) (tick st) line Hlater)
        as (k & Hk & Hi).
      exists k. simpl in Hk. split; [lia|done].
    + apply elem_of_cons in Hin as [->|Hin]; [|done].
      apply (legacy_database_keeps (clock_reads st)). simpl.
      exists (clock_reads st). rewrite lookup_insert_eq. split; [lia|done].
Qed.

Lemma legacy_database_keys lines :
  ∀ db st i r,
    (legacy_database E lines db st).1 !! i = Some r →
    db !! i = Some r ∨ ∃ line, line ∈ lines ∧ i = Py.strip line.
Proof.
  induction lines as [|line0 lines IH]; intros db st i r H; simpl in H.
  - by left.
  - apply IH in H as [H | (line & Hin & ->)].
    + destruct (decide (Py.strip line0 = i)) as [<-|Hne].
      * right. exists line0. split; [apply list_elem_of_here | done].
      * left. by rewrite lookup_insert_ne in H.
    + right. exists line. split; [by apply list_elem_of_further | done].
Qed.

(** C7.  Loading the ledger writes no file and makes no request.  When the
    ledger file does not exist, the ledger starts empty.  When the file
    exists and its text is not valid JSON, the text is read as one
    identifier per line: every line yields, under its stripped text, a
    record that holds only [last_seen], set to a reading of the clock
    taken during the load, and the ledger has no other record. *)
Theorem ledger_load self st :
  fs (init E self st) = fs st
  ∧ posts (init E self st) = posts st
  ∧ (fs st !! database_file self = None → database (init E self st) = ∅)
  ∧ (∀ dbtext,
       Py.nonempty (database_file self) = true →
       fs st !! database_file self = Some dbtext →
       json_loads E dbtext = None →
       (∀ line, line ∈ Py.splitlines dbtext →
          ∃ k, (clock_reads st ≤ k < clock_reads (init E self st))%nat
               ∧ database (init E self st) !! Py.strip line
                 = Some (seen_at (clock E k)))
       ∧ (∀ i r, database (init E self st) !! i = Some r →
                 ∃ line, line ∈ Py.splitlines dbtext ∧ i = Py.strip line)).
Proof.
  unfold init. simpl.
  destruct (Py.nonempty (database_file self)) eqn:Hname.
  2:{ split; [done|]. split; [done|]. split; [done|]. by intros dbtext. }
  destruct (fs st !! database_file self) as [dbtext|] eqn:Hfile.
  2:{ split; [done|]. split; [done|]. split; [done|]. by intros dbtext. }
  destruct (json_loads E dbtext) as [db|] eqn:Hjson.
  { split; [done|]. split; [done|]. split; [done|].
    intros dbtext' _ [= <-]. congruence. }
  pose proof (legacy_database_frame (Py.splitlines dbtext) ∅ (set_database ∅ st))
    as (Hf & Hp & Hc).
  pose proof (legacy_database_lines (Py.splitlines dbtext) ∅ (set_database ∅ st))
    as Hlines.
  pose proof (legacy_database_keys (Py.splitlines dbtext) ∅ (set_database ∅ st))
    as Hkeys.
  destruct (legacy_database E (Py.splitlines dbtext) ∅ (set_database ∅ st))
    as [db st'].
  simpl in *. split; [done|]. split; [done|]. split; [done|].
  intros dbtext' _ [= <-] _. split.
  - intros line Hin. destruct (Hlines line Hin) as (k & Hk & Hi).
    exists k. split; [lia|done].
  - intros i r Hi. apply Hkeys in Hi as [Hi|Hi]; [|done].
    by rewrite lookup_empty in Hi.
Qed.

End Load.

Lemma ledger_load_witness :
  let st' := init (Sample.world []) Sample.bot LegacySample.disk in
  fs st' = fs LegacySample.disk
  ∧ (∃ k, database st' !! LegacySample.quoted "entry-1"
          = Some (seen_at (clock (Sample.world []) k)))
  ∧ (∃ k, database st' !! LegacySample.quoted "entry-2"
          = Some (seen_at (clock (Sample.world []) k)))
  ∧ database (init (Sample.world []) Sample.bot Sample.start) = ∅.
Proof.
  destruct (ledger_load (Sample.world []) Sample.bot LegacySample.disk)
    as (Hfs & _ & _ & Hlegacy).
  destruct (Hlegacy LegacySample.dbtext eq_refl eq_refl eq_refl) as [Hlines _].
  destruct (ledger_load (Sample.world []) Sample.bot Sample.start)
    as (_ & _ & Hmissing & _).
  cbv zeta. split; [exact Hfs|]. split; [|split].
  - destruct (Hlines (LegacySample.quoted "entry-1")) as (k & _ & Hk).
    { vm_compute. apply list_elem_of_here. }
    exists k. exact Hk.
  - destruct (Hlines (LegacySample.quoted "entry-2")) as (k & _ & Hk).
    { vm_compute. apply list_elem_of_further, list_elem_of_here. }
    exists k. exact Hk.
  - apply Hmissing. reflexivity.
Defined.

(** ** Substrings under [strip] and [replace] *)

Lemma chars_str l : Py.chars (Py.str l) = l.
Proof. apply list_ascii_of_string_of_list_ascii. Qed.

Lemma is_tab_isspace c : Py.is_tab c = true → Py.isspace c = true.
Proof.
  unfold Py.is_tab, Py.isspace. intros H. apply N.eqb_eq in H. by rewrite H.
Qed.

Lemma tab_to_spaces_solid l : solid l → flat_map Py.tab_to_spaces l = l.
Proof.
  induction 1 as [|c l Hc _ IH]; simpl; [done|].
  unfold Py.tab_to_spaces at 1.
  destruct (Py.is_tab c) eqn:Htab.
  - apply is_tab_isspace in Htab. congruence.
  - simpl. by rewrite IH.
Qed.

Lemma lstrip_chars_infix pre sub post :
  solid sub → sub ≠ [] →
  ∃ pre', Py.lstrip_chars (pre ++ sub ++ post) = pre' ++ sub ++ post.
Proof.
  intros Hsolid Hne. induction pre as [|x pre IH]; simpl.
  - exists []. destruct Hsolid as [|c sub Hc _]; [done|]. simpl. by rewrite Hc.
  - destruct (Py.isspace x); [done|]. by exists (x :: pre).
Qed.

Lemma lstrip_chars_suffix l : ∃ ws, l = ws ++ Py.lstrip_chars l.
Proof.
  induction l as [|x l [ws IH]]; simpl.
  - by exists [].
  - destruct (Py.isspace x).
    + exists (x :: ws). simpl. by rewrite <- IH.
    + by exists [].
Qed.

Lemma strip_chars_infix l : ∃ a b, l = a ++ Py.strip_chars l ++ b.
Proof.
  unfold Py.strip_chars.
  destruct (lstrip_chars_suffix l) as [ws Hl].
  destruct (lstrip_chars_suffix (rev (Py.lstrip_chars l))) as [ws2 Hr].
  exists ws, (rev ws2).
  rewrite <- rev_app_distr, <- Hr, rev_involutive. exact Hl.
Qed.

Lemma occurs_empty s : Py.occurs "" s.
Proof. by exists [], (Py.chars s). Qed.

(** [strip] keeps the substrings that have no white space. *)
Lemma occurs_strip sub s :
  solid (Py.chars sub) → Py.occurs sub s → Py.occurs sub (Py.strip s).
Proof.
  unfold Py.occurs, Py.strip. intros Hsolid (pre & post & Hs).
  rewrite chars_str, Hs.
  destruct (decide (Py.chars sub = [])) as [Hnil|Hne].
  { rewrite Hnil. by exists [], (Py.strip_chars (pre ++ [] ++ post)). }
  unfold Py.strip_chars.
  destruct (lstrip_chars_infix pre _ post Hsolid Hne) as [pre' ->].
  rewrite !rev_app_distr, <- app_assoc.
  destruct (lstrip_chars_infix (rev post) (rev (Py.chars sub)) (rev pre'))
    as [post' ->].
  - by apply Forall_rev.
  - intros Hrev. apply Hne. by rewrite <- (rev_involutive (Py.chars sub)), Hrev.
  - exists pre', (rev post').
    by rewrite !rev_app_distr, !rev_involutive, <- app_assoc.
Qed.

(** What occurs in the stripped text occurs in the text. *)
Lemma occurs_strip_inv sub s : Py.occurs sub (Py.strip s) → Py.occurs sub s.
Proof.
  unfold Py.occurs, Py.strip. rewrite chars_str. intros (pre & post & Hs).
  destruct (strip_chars_infix (Py.chars s)) as (a & b & Hab).
  exists (a ++ pre), (post ++ b). rewrite Hab at 1. rewrite Hs.
  by rewrite <- !app_assoc.
Qed.

(** [replace] of tabs keeps the substrings that have no white space. *)
Lemma occurs_replace_tabs sub s :
  solid (Py.chars sub) → Py.occurs sub s → Py.occurs sub (Py.replace_tabs s).
Proof.
  unfold Py.occurs, Py.replace_tabs. intros Hsolid (pre & post & Hs).
  rewrite chars_str, Hs, !flat_map_app, (tab_to_spaces_solid _ Hsolid).
  eauto.
Qed.

Lemma tab_to_spaces_prefix sub :
  solid sub →
  ∀ l post, flat_map Py.tab_to_spaces l = sub ++ post →
            ∃ post', l = sub ++ post'.
Proof.
  induction 1 as [|c sub Hc _ IH]; intros l post H.
  - by exists l.
  - destruct l as [|x l]; [discriminate|]. simpl in H.
    unfold Py.tab_to_spaces at 1 in H. destruct (Py.is_tab x).
    + injection H as <- _. discriminate Hc.
    + injection H as -> H. destruct (IH _ _ H) as [post' ->]. by exists post'.
Qed.

(** A substring without white space that occurs after the replacement of
    tabs occurred before it. *)
Lemma occurs_replace_tabs_inv sub s :
  solid (Py.chars sub) →
  Py.occurs sub (Py.replace_tabs s) → Py.occurs sub s.
Proof.
  unfold Py.occurs, Py.replace_tabs. rewrite chars_str.
  generalize (Py.chars s) as l, (Py.chars sub) as t. clear sub s.
  intros l t Hsolid (pre & post & H).
  destruct t as [|c t]; [by exists [], l|].
  apply Forall_cons in Hsolid as Hc. destruct Hc as [Hc _].
  revert pre H. induction l as [|x l IH]; intros pre H.
  - simpl in H. by destruct pre.
  - destruct pre as [|p pre].
    + destruct (tab_to_spaces_prefix _ Hsolid _ _ H) as [post' ->].
      by exists [], post'.
    + simpl in H. unfold Py.tab_to_spaces at 1 in H.
      assert (∃ pre0 post0, l = pre0 ++ (c :: t) ++ post0)
        as (pre0 & post0 & ->).
      { destruct (Py.is_tab x).
        - injection H as <- H. destruct pre as [|p2 pre].
          + injection H as <- _. discriminate Hc.
          + injection H as <- H. by apply (IH pre).
        - injection H as <- H. by apply (IH pre). }
      by exists (x :: pre0), post0.
Qed.

(** ** Content extraction *)

Section Extraction.

Variable E : collaborators.

Lemma resolve_images entry l srcs :
  link entry = Some l →
  mapM (λ src, l ← require (link entry) (AttributeError "link");
               Ok (urljoin E l src)) srcs
  = Ok (urljoin E l <$> srcs).
Proof.
  intros Hl. induction srcs as [|src srcs IH]; [done|].
  change (mapM ?f (src :: srcs)) with (y ← f src; k ← mapM f srcs; mret (y :: k)).
  rewrite IH, Hl. reflexivity.
Qed.

Lemma to_markdown_empty : to_markdown E "" = "".
Proof. reflexivity. Qed.

Lemma get_content_selects entry l :
  link entry = Some l → content entry ≠ Some [] →
  get_content E entry
  = Ok (to_markdown E (text_html entry),
        urljoin E l <$> find_all_img_src E (image_html entry)).
Proof.
  intros Hl Hc. unfold get_content, image_html, text_html, first_content.
  destruct (content entry) as [[|c cs]|]; [done| |]; simpl.
  - rewrite (resolve_images _ _ _ Hl). simpl.
    destruct (summary entry) as [[|a s]|]; simpl; try done;
      by destruct c.
  - destruct (summary entry) as [[|a s]|]; simpl;
      rewrite (resolve_images _ _ _ Hl); done.
Qed.

(** C8.  For an entry with a link (and whose content list, if present, is
    not empty): the images are the [src] of the [img] elements of the rich
    content if the entry has one, else of the summary, in the order the
    scanner gives them, each joined to the entry link; the text is the
    Markdown of the summary if it is present and not empty, else of the
    rich content; the conversion is asked to strip [img] tags.  In
    particular, for the summary [<p>Hello <img src='a.png'>world</p>] and
    the link [http://x/], given a scanner that finds [a.png], a join that
    gives [http://x/a.png] and a converter whose output has [Hello] and
    [world] and no [<img], the result is the image list [http://x/a.png]
    and a text that has [Hello] and [world] and no [<img]. *)
Theorem content_extraction entry l :
  link entry = Some l → content entry ≠ Some [] →
  get_content E entry
  = Ok (to_markdown E (text_html entry),
        urljoin E l <$> find_all_img_src E (image_html entry))
  ∧ (∀ a s, to_markdown E (String a s)
            = Py.replace_tabs
                (Py.strip
                   (convert_to_markdown E
                      {| heading_style := "atx"; strip_newlines := true;
                         escape_misc := false; wrap := false; bullets := "*";
                         strip := ["img"] |} (String a s))))
  ∧ (summary entry = Some Sample.html → content entry = None →
     l = "http://x/" →
     find_all_img_src E Sample.html = ["a.png"] →
     urljoin E "http://x/" "a.png" = "http://x/a.png" →
     Py.occurs "Hello" (convert_to_markdown E markdown_options Sample.html) →
     Py.occurs "world" (convert_to_markdown E markdown_options Sample.html) →
     ¬ Py.occurs "<img" (convert_to_markdown E markdown_options Sample.html) →
     ∃ md_text,
       get_content E entry = Ok (md_text, ["http://x/a.png"])
       ∧ Py.occurs "Hello" md_text ∧ Py.occurs "world" md_text
       ∧ ¬ Py.occurs "<img" md_text).
Proof.
  intros Hl Hc. split; [by apply get_content_selects|]. split; [done|].
  intros Hsum Hcont -> Hscan Hjoin Hhello Hworld Himg.
  exists (to_markdown E Sample.html).
  rewrite (get_content_selects _ _ Hl Hc).
  unfold text_html, image_html. rewrite Hsum, Hcont. simpl.
  rewrite Hscan. simpl. rewrite Hjoin.
  assert (∀ sub, solid (Py.chars sub) →
                 Py.occurs sub (convert_to_markdown E markdown_options Sample.html) →
                 Py.occurs sub (to_markdown E Sample.html)) as Hkeep.
  { intros sub Hsolid H. unfold to_markdown. simpl.
    by apply occurs_replace_tabs, occurs_strip. }
  split; [done|].
  split; [apply Hkeep; [by repeat constructor | done]|].
  split; [apply Hkeep; [by repeat constructor | done]|].
  intros H. apply Himg. unfold to_markdown in H. simpl in H.
  apply occurs_strip_inv, occurs_replace_tabs_inv; [by repeat constructor | done].
Qed.

End Extraction.

Lemma content_extraction_witness :
  ∃ md_text,
    get_content (Sample.world []) (Sample.entry "e1")
    = Ok (md_text, ["http://x/a.png"])
    ∧ Py.occurs "Hello" md_text ∧ Py.occurs "world" md_text
    ∧ ¬ Py.occurs "<img" md_text.
Proof.
  refine (proj2 (proj2 (content_extraction (Sample.world []) (Sample.entry "e1")
                          "http://x/" eq_refl _))
            eq_refl eq_refl eq_refl eq_refl eq_refl _ _ _).
  - discriminate.
  - exists [], (Py.chars (" world" +:+ newline +:+ newline)). reflexivity.
  - exists (Py.chars "Hello "), (Py.chars (newline +:+ newline)). reflexivity.
  - intros (pre & post & H). vm_compute in H.
    repeat (destruct pre as [|? pre]; [discriminate H|];
            injection H as _ H).
    by destruct pre.
Defined.

(** ** Further properties of the per-entry loop *)

Section Loop.

Variable E : collaborators.
Variable self : DiscordRSS.
Variable options : Options.
Variable config : FeedConfig.
Variable fmeta : FeedMeta.

Local Abbreviation step := (process_feed_entry E self options config fmeta).
Local Abbreviation run := (process_entries E self options config fmeta).

Lemma step_passable entry st :
  passable entry → (step entry st).2 = Ok ().
Proof.
  intros [Hid Hlink]. revert Hid Hlink. step_cases; congruence.
Qed.

Lemma step_clock_passable entry st :
  passable entry → clock_reads (step entry st).1 = S (clock_reads st).
Proof.
  intros [Hid Hlink]. revert Hid Hlink. step_cases; congruence.
Qed.

(** Whatever the mode and whatever becomes of the delivery, a step
    leaves the record of its entry with the link of the entry as [url]
    and the time of the step as [last_seen]. *)
Lemma step_refresh entry i l st :
  id entry = Some i → link entry = Some l →
  ∃ r', database (step entry st).1 !! i = Some r'
        ∧ url r' = Some l
        ∧ last_seen r' = Some (clock E (clock_reads st)).
Proof.
  intros Hid Hlink. revert Hid Hlink.
  step_cases; intros [= ->] [= ->]; eexists; rewrite lookup_insert_eq;
    (split; [reflexivity|]); done.
Qed.

Lemma run_passable es :
  Forall passable es → ∀ st, (run es st).2 = Ok ().
Proof.
  induction 1 as [|entry es Hentry _ IH]; intros st; simpl; [done|].
  pose proof (step_passable entry st Hentry) as Hok.
  destruct (step entry st) as [st1 [[]|err]]; simpl in *; [apply IH | done].
Qed.

Lemma run_cons_passable entry es st :
  passable entry → run (entry :: es) st = run es (step entry st).1.
Proof.
  intros Hentry. simpl. pose proof (step_passable entry st Hentry) as Hok.
  destruct (step entry st) as [st1 [[]|err]]; simpl in *; [done | discriminate].
Qed.

Lemma recorded_since_step all k0 i entry st :
  passable entry → entry ∈ all → (k0 ≤ clock_reads st)%nat →
  recorded_since E all k0 i st ∨ id entry = Some i →
  recorded_since E all k0 i (step entry st).1.
Proof.
  intros Hentry Hin Hk0 H. unfold recorded_since.
  rewrite step_clock_passable by done.
  destruct (decide (id entry = Some i)) as [Hid|Hne].
  - destruct Hentry as [_ Hlink]. destruct (link entry) as [l|] eqn:Hl; [|done].
    destruct (step_refresh entry i l st Hid Hl) as (r & Hr & Hurl & Hseen).
    exists r. split; [done|]. split.
    + exists entry. split; [done|]. split; [done|congruence].
    + exists (clock_reads st). split; [lia|done].
  - destruct H as [(r & Hr & Hu & k & Hk & Hseen)|Hid]; [|done].
    exists r. rewrite step_other by done. split; [done|]. split; [done|].
    exists k. split; [lia|done].
Qed.

Lemma recorded_since_run all k0 i es :
  Forall passable es → (∀ e, e ∈ es → e ∈ all) →
  ∀ st, (k0 ≤ clock_reads st)%nat →
        recorded_since E all k0 i st ∨ (∃ e, e ∈ es ∧ id e = Some i) →
        recorded_since E all k0 i (run es st).1.
Proof.
  induction 1 as [|e0 es He0 Hall IH]; intros Hsub st Hk0 H.
  - destruct H as [H|(e & He & _)]; [done | by apply elem_of_nil in He].
  - rewrite run_cons_passable by done.
    apply IH.
    + intros e He. by apply Hsub, list_elem_of_further.
    + rewrite step_clock_passable by done. lia.
    + destruct (decide (id e0 = Some i)) as [Hid|Hne].
      * left. apply recorded_since_step; auto. apply Hsub, list_elem_of_here.
      * destruct H as [H|(e & He & Hid)].
        -- left. apply recorded_since_step; auto. apply Hsub, list_elem_of_here.
        -- right. exists e. split; [|done].
           apply elem_of_cons in He as [->|He]; [done|done].
Qed.

(** X1.  When every entry of a feed has an id and a link, the loop ends
    normally and every entry of the feed has a record afterwards, whose
    [url] is the link of an entry of the feed with that id and whose
    [last_seen] is a reading of the clock taken during the loop, whatever
    the mode and whatever became of the deliveries. *)
Theorem entries_are_recorded es st entry i :
  Forall passable es → entry ∈ es → id entry = Some i →
  (run es st).2 = Ok ()
  ∧ ∃ r, database (run es st).1 !! i = Some r
         ∧ (∃ e, e ∈ es ∧ id e = Some i ∧ url r = link e)
         ∧ (∃ k, (clock_reads st ≤ k < clock_reads (run es st).1)%nat
                 ∧ last_seen r = Some (clock E k)).
Proof.
  intros Hall Hin Hid. split; [by apply run_passable|].
  apply (recorded_since_run es (clock_reads st) i es); auto.
  right. by exists entry.
Qed.

End Loop.

(** ** Requests *)

Section Requests.

Variable E : collaborators.
Variable self : DiscordRSS.
Variable options : Options.

Global Instance posts_as_built_refl : Reflexive (posts_as_built E self options).
Proof. intros st. exists []. by rewrite app_nil_r. Qed.

Global Instance posts_as_built_trans :
  Transitive (posts_as_built E self options).
Proof.
  intros st1 st2 st3 (d1 & Hp1 & H1) (d2 & Hp2 & H2).
  exists (d1 ++ d2). split; [by rewrite Hp2, Hp1, app_assoc|].
  by apply Forall_app.
Qed.

Lemma posts_as_built_step config fmeta entry st :
  posts_as_built E self options st
    (process_feed_entry E self options config fmeta entry st).1.
Proof.
  destruct (step_posts E self options config fmeta entry st)
    as [Hposts | (payload & Hdry & Hpop & Hbuild & Hposts)].
  - exists []. by rewrite app_nil_r.
  - eexists. split; [exact Hposts|]. apply Forall_singleton.
    repeat split; try done. by exists config, fmeta.
Qed.

Lemma save_frame st :
  posts (save E self options st).1 = posts st
  ∧ clock_reads (save E self options st).1 = clock_reads st
  ∧ fetches (save E self options st).1 = fetches st.
Proof.
  unfold save.
  destruct (Py.nonempty (database_file self) && negb (dry_run options)); [|done].
  by destruct (json_dump E (database st)).
Qed.

Lemma flushdb_posts st :
  posts (flushdb E self options st).1 = posts st.
Proof.
  unfold flushdb. destruct (save_frame (prune E options st)) as [-> _].
  apply prune_frame.
Qed.

Lemma posts_as_built_process st :
  posts_as_built E self options st (process E self options st).1.
Proof.
  unfold process.
  transitivity (process_feeds E self options (feeds self) st).
  - apply process_feeds_invariant; try apply _.
    + intros st0. exists []. by rewrite app_nil_r.
    + intros. apply posts_as_built_step.
  - exists []. by rewrite app_nil_r, flushdb_posts.
Qed.

Lemma new_posts_app st st' delta :
  posts st' = posts st ++ delta → new_posts st st' = delta.
Proof. intros H. unfold new_posts. by rewrite H, drop_app_length. Qed.

(** X2.  Every request of a whole run goes to the webhook of the agent and
    carries the payload [build_payload] gives for its entry under some
    feed configuration; a run under dry-run or under populate makes no
    request at all. *)
Theorem requests_are_as_built st :
  Forall (as_built E self options) (new_posts st (process E self options st).1)
  ∧ (dry_run options = true ∨ populate options = true →
     posts (process E self options st).1 = posts st).
Proof.
  destruct (posts_as_built_process st) as (delta & Hposts & Hall).
  rewrite (new_posts_app _ _ _ Hposts). split; [done|].
  intros Hmode. rewrite Hposts.
  destruct delta as [|a delta]; [by rewrite app_nil_r|].
  apply Forall_cons in Hall as [(_ & Hdry & Hpop & _) _].
  destruct Hmode; congruence.
Qed.

(** X3.  Under populate, an entry that has an id and a link is marked sent by
    the step that processes it, and an entry that was marked keeps the
    value it had. *)
Theorem populate_marks_sent config fmeta entry i st :
  populate options = true →
  passable entry → id entry = Some i →
  truthy (sent_at i (process_feed_entry E self options config fmeta entry st).1)
  = true
  ∧ (truthy (sent_at i st) = true →
     sent_at i (process_feed_entry E self options config fmeta entry st).1
     = sent_at i st).
Proof.
  intros Hpop [_ Hlink] Hid. split.
  - revert Hid Hlink. unfold sent_at.
    step_cases; intros [= ->] Hl; try congruence;
      rewrite lookup_insert_eq; simpl; try done.
  - intros Hsent.
    by destruct (step_delivered E self options config fmeta entry st i Hid Hsent).
Qed.

(** X4.  The loop makes at most one request per entry of the feed: nothing is
    tried twice within a run. *)
Theorem at_most_one_request_per_entry config fmeta es st :
  (length (new_posts st (process_entries E self options config fmeta es st).1)
   ≤ length es)%nat.
Proof.
  assert (∀ es st, ∃ delta,
    posts (process_entries E self options config fmeta es st).1
    = posts st ++ delta ∧ (length delta ≤ length es)%nat) as H.
  { clear. intros es. induction es as [|entry es IH]; intros st; simpl.
    - exists []. by rewrite app_nil_r.
    - assert (∃ d1, posts (process_feed_entry E self options config fmeta
                              entry st).1 = posts st ++ d1
                    ∧ (length d1 ≤ 1)%nat) as (d1 & Hp1 & Hl1).
      { destruct (step_posts E self options config fmeta entry st)
          as [Hposts | (payload & _ & _ & _ & Hposts)].
        - exists []. rewrite app_nil_r. split; [done | simpl; lia].
        - eexists. split; [exact Hposts | simpl; lia]. }
      destruct (process_feed_entry E self options config fmeta entry st)
        as [st1 [[]|err]]; simpl in *.
      + destruct (IH st1) as (d2 & Hp2 & Hl2).
        exists (d1 ++ d2). rewrite Hp2, Hp1, app_assoc, length_app.
        split; [done|lia].
      + exists d1. split; [done|lia]. }
  destruct (H es st) as (delta & Hposts & Hlen).
  by rewrite (new_posts_app _ _ _ Hposts).
Qed.

End Requests.

(** ** Feeds and entries that are skipped *)

Section Skipped.

Variable E : collaborators.
Variable self : DiscordRSS.
Variable options : Options.

(** X5.  A feed whose fetch raises, or whose parse is flagged [bozo], is left
    out as a whole, whatever entries came with it: only the fetch is
    counted, and the feeds that follow are processed. *)
Theorem failed_feed_is_skipped config rest st :
  (∀ data, feedparser_parse E (fetches st) (feed_url config) = Ok data →
           bozo data = true) →
  process_feeds E self options (config :: rest) st
  = process_feeds E self options rest (count_fetch st).
Proof.
  intros Hbad. simpl. f_equal. unfold process_feed.
  destruct (feedparser_parse E (fetches st) (feed_url config)) as [data|err];
    [|done].
  rewrite (Hbad data eq_refl).
  by destruct (error data), (status data).
Qed.

(** X6.  An entry without an id or without a link ends the loop over its feed
    with an exception: the entries after it are not looked at.  The entry
    itself gets no request; if it has an id, the ledger holds a record
    for it afterwards (an empty one, if the id was new). *)
Theorem entry_without_link_ends_feed config fmeta bad es1 es2 st :
  ¬ passable bad →
  process_entries E self options config fmeta (es1 ++ bad :: es2) st
  = process_entries E self options config fmeta (es1 ++ [bad]) st
  ∧ (∃ err, (process_entries E self options config fmeta
               (es1 ++ bad :: es2) st).2 = Raise err)
  ∧ posts (process_feed_entry E self options config fmeta bad st).1 = posts st
  ∧ (∀ i, id bad = Some i →
          database (process_feed_entry E self options config fmeta bad st).1 !! i
          = Some (found i st)).
Proof.
  intros Hbad.
  assert (∀ st0, ∃ err,
            (process_feed_entry E self options config fmeta bad st0).2
            = Raise err) as Hraise.
  { intros st0. unfold process_feed_entry, passable in *.
    destruct (id bad); [|by eexists].
    destruct (link bad); [|by eexists]. exfalso. apply Hbad. done. }
  split; [|split; [|split]].
  - revert st. induction es1 as [|e es1 IH]; intros st; simpl.
    + destruct (Hraise st) as [err Herr].
      destruct (process_feed_entry E self options config fmeta bad st)
        as [st1 [[]|err']]; simpl in *; [discriminate | done].
    + destruct (process_feed_entry E self options config fmeta e st)
        as [st1 [[]|err]]; [apply IH | done].
  - revert st. induction es1 as [|e es1 IH]; intros st; simpl.
    + destruct (Hraise st) as [err Herr].
      destruct (process_feed_entry E self options config fmeta bad st)
        as [st1 [[]|err']]; simpl in *; [discriminate | by eexists].
    + destruct (process_feed_entry E self options config fmeta e st)
        as [st1 [[]|err]]; [apply IH | by eexists].
  - unfold process_feed_entry, passable in *.
    destruct (id bad); [|done]. destruct (link bad); [|done].
    exfalso. apply Hbad. done.
  - intros i Hid. unfold process_feed_entry, passable, found in *.
    rewrite Hid in *. destruct (link bad).
    + exfalso. apply Hbad. done.
    + simpl. by rewrite lookup_insert_eq.
Qed.

End Skipped.

(** ** Saving and loading *)

Section Persistence.

Variable E : collaborators.
Variable self : DiscordRSS.
Variable options : Options.


Global Instance marks_failures_refl : Reflexive marks_failures.
Proof.
  intros st. exists []. rewrite app_nil_r. split; [done|]. by split.
Qed.

Global Instance marks_failures_trans : Transitive marks_failures.
Proof.
  intros st1 st2 st3 (d1 & Hp1 & Hk1 & H1) (d2 & Hp2 & Hk2 & H2).
  exists (d1 ++ d2). split; [by rewrite Hp2, Hp1, app_assoc|].
  split; [by auto|]. apply Forall_app. split; [|done].
  eapply Forall_impl; [exact H1|]. simpl. intros a Ha Hno.
  destruct (Ha Hno) as (i & Hid & Hexc). exists i. auto.
Qed.







(** X8.  A flush that ends normally, with a ledger file and without dry-run,
    has written the dump of the ledger it leaves in memory to the ledger
    file and changed no other file; and if [json.loads] reads that dump
    back, an agent created afterwards starts from that ledger. *)
Theorem flush_then_load st :
  Py.nonempty (database_file self) = true → dry_run options = false →
  (flushdb E self options st).2 = Ok () →
  let st' := (flushdb E self options st).1 in
  fs st' !! database_file self = Some (json_dumps E (database st'))
  ∧ (∀ path, path ≠ database_file self → fs st' !! path = fs st !! path)
  ∧ (json_loads E (json_dumps E (database st')) = Some (database st') →
     ∀ st2, fs st2 = fs st' →
            database (init E self st2) = database st').
Proof.
  intros Hfile Hlive Hok st'.
  assert (fs st' = <[database_file self := json_dumps E (database st')]> (fs st))
    as Hfs.
  { subst st'. revert Hok. unfold flushdb, save. rewrite Hfile, Hlive. simpl.
    unfold json_dump. destruct (decide _); [|discriminate]. simpl. intros _.
    by destruct (prune_frame E options st) as [_ ->]. }
  split; [by rewrite Hfs, lookup_insert_eq|].
  split; [intros path Hne; by rewrite Hfs, lookup_insert_ne|].
  intros Hround st2 Hst2. unfold init. simpl.
  rewrite Hfile, Hst2, Hfs, lookup_insert_eq, Hround. done.
Qed.


End Persistence.

(** ** Entries of the feed and the flush of the same run *)

(** X10.  An entry that was in the feed is not pruned by the flush that
    follows: when every entry of the feed has an id and a link, and (for
    a retention of [max_age] > 0 days) the cutoff that the flush computes
    is earlier than every reading of the clock taken during the loop, the
    record of every entry of the feed is in the ledger after the flush. *)
Theorem seen_entries_survive_flush
        E self options config fmeta es st entry i :
  Forall passable es → entry ∈ es → id entry = Some i →
  (0 < max_age options →
   ∀ cutoff k,
     days_before E
       (clock_reads (process_entries E self options config fmeta es st).1)
       (max_age options) = Some cutoff →
     (clock_reads st ≤ k
      < clock_reads (process_entries E self options config fmeta es st).1)%nat →
     cutoff < clock E k) →
  is_Some (database
             (flushdb E self options
                (process_entries E self options config fmeta es st).1).1 !! i).
Proof.
  intros Hall Hin Hid Hshort.
  destruct (recorded_since_run E self options config fmeta es (clock_reads st)
              i es Hall ltac:(auto) st ltac:(lia))
    as (r & Hr & _ & k & Hk & Hseen).
  { right. by exists entry. }
  unfold flushdb. rewrite save_database.
  destruct (decide (0 < max_age options)) as [Hpos|Hneg];
    [|rewrite prune_skipped by lia; by eexists].
  destruct (days_before E
              (clock_reads (process_entries E self options config fmeta es st).1)
              (max_age options)) as [cutoff|] eqn:Hcut;
    [|rewrite prune_out_of_range by done; by eexists].
  rewrite (prune_lookup _ _ _ cutoff), Hr by done. simpl.
  unfold keep. rewrite Hseen.
  pose proof (Hshort Hpos cutoff k eq_refl Hk) as Hlt.
  apply Z.ltb_lt in Hlt. rewrite Hlt. by eexists.
Qed.

(** ** The shape of the Markdown *)

Lemma last_rev {A} (l : list A) : last (rev l) = head l.
Proof. destruct l as [|x l]; [done|]. simpl. apply last_snoc. Qed.

Lemma head_rev {A} (l : list A) : head (rev l) = last l.
Proof. by rewrite <- (rev_involutive l) at 2; rewrite last_rev. Qed.

Lemma lstrip_chars_head l c :
  head (Py.lstrip_chars l) = Some c → Py.isspace c = false.
Proof.
  induction l as [|x l IH]; simpl; [done|].
  destruct (Py.isspace x) eqn:Hx; [done|]. by intros [= <-].
Qed.

Lemma lstrip_chars_last l c :
  last (Py.lstrip_chars l) = Some c → last l = Some c.
Proof.
  intros H. destruct (lstrip_chars_suffix l) as [ws Hl].
  rewrite Hl, last_app, H. done.
Qed.

Lemma strip_chars_trimmed l : trimmed (Py.strip_chars l).
Proof.
  unfold trimmed, Py.strip_chars. split; intros c.
  - rewrite head_rev. intros H. apply lstrip_chars_last in H.
    rewrite last_rev in H. by apply lstrip_chars_head in H.
  - rewrite last_rev. apply lstrip_chars_head.
Qed.

Lemma isspace_not_tab c : Py.isspace c = false → Py.is_tab c = false.
Proof.
  intros H. destruct (Py.is_tab c) eqn:Ht; [|done].
  apply is_tab_isspace in Ht. congruence.
Qed.

Lemma tab_to_spaces_trimmed l :
  trimmed l → trimmed (flat_map Py.tab_to_spaces l).
Proof.
  intros [Hhead Hlast]. split; intros c.
  - destruct l as [|x l]; [done|]. simpl.
    unfold Py.tab_to_spaces at 1.
    rewrite (isspace_not_tab x (Hhead x eq_refl)). simpl.
    intros [= <-]. by apply Hhead.
  - destruct (last l) as [x|] eqn:Hx.
    + apply last_Some in Hx as [l' ->].
      rewrite flat_map_app. simpl. rewrite app_nil_r.
      unfold Py.tab_to_spaces at 2.
      assert (Py.isspace x = false) as Hsp by (by apply Hlast).
      rewrite (isspace_not_tab x Hsp), last_snoc. by intros [= <-].
    + apply last_None in Hx as ->. done.
Qed.

Lemma tab_to_spaces_no_tab l c :
  c ∈ flat_map Py.tab_to_spaces l → Py.is_tab c = false.
Proof.
  rewrite list_elem_of_In, in_flat_map. intros (x & _ & Hc).
  unfold Py.tab_to_spaces in Hc. destruct (Py.is_tab x) eqn:Hx.
  - destruct Hc as [<-|[<-|[]]]; reflexivity.
  - destruct Hc as [<-|[]]. done.
Qed.

(** X11.  The Markdown [to_markdown] returns has no tab in it and neither
    starts nor ends with white space, whatever the converter gives; for
    an empty text the converter is not asked and the result is empty. *)
Theorem to_markdown_is_trimmed E html :
  (∀ c, c ∈ Py.chars (to_markdown E html) → Py.is_tab c = false)
  ∧ trimmed (Py.chars (to_markdown E html))
  ∧ (html = "" → to_markdown E html = "").
Proof.
  unfold to_markdown. destruct html as [|a html]; simpl.
  - split; [intros c Hc; by apply elem_of_nil in Hc|]. split; [by split|done].
  - unfold Py.replace_tabs, Py.strip. rewrite !chars_str.
    split; [intros c; apply tab_to_spaces_no_tab|].
    split; [|done]. apply tab_to_spaces_trimmed, strip_chars_trimmed.
Qed.

(** ** Failures of extraction and of payload construction *)

Section Failures.

Variable E : collaborators.

(** X12.  Two failures of [get_content].  An entry whose content list is
    empty raises [IndexError].  An entry without a link, whose content
    list is not empty (or missing) and in whose scanned HTML there is an
    image with a [src], raises the [AttributeError] of the missing
    link. *)
Theorem get_content_failures entry :
  (content entry = Some [] → get_content E entry = Raise IndexError)
  ∧ (content entry ≠ Some [] → link entry = None →
     find_all_img_src E (image_html entry) ≠ [] →
     get_content E entry = Raise (AttributeError "link")).
Proof.
  split.
  - intros Hc. unfold get_content. by rewrite Hc.
  - intros Hc Hl Himg. unfold get_content, image_html in *. rewrite Hl.
    destruct (content entry) as [[|c cs]|]; [done| |]; simpl in *.
    + by destruct (find_all_img_src E c).
    + destruct (summary entry) as [s|]; simpl in *;
        by destruct (find_all_img_src E _).
Qed.

Lemma attach_item_frame embed item embed' :
  attach_item E embed item = Ok embed' →
  embed_type embed' = embed_type embed ∧ embed_url embed' = embed_url embed
  ∧ author_url embed' = author_url embed
  ∧ author_name embed' = author_name embed
  ∧ description embed' = description embed.
Proof.
  unfold attach_item. destruct (medium item) as [m|]; [|discriminate]. simpl.
  destruct (String.eqb m "image").
  { destruct (image embed); [by intros [= <-]|].
    destruct (media_attachment E item); [|discriminate]. by intros [= <-]. }
  destruct (String.eqb m "thumbnail").
  { destruct (thumbnail embed); [by intros [= <-]|].
    destruct (media_attachment E item); [|discriminate]. by intros [= <-]. }
  by intros [= <-].
Qed.

Lemma attach_media_frame items :
  ∀ embed embed', attach_media E items embed = Ok embed' →
  embed_type embed' = embed_type embed ∧ embed_url embed' = embed_url embed
  ∧ author_url embed' = author_url embed
  ∧ author_name embed' = author_name embed
  ∧ description embed' = description embed.
Proof.
  induction items as [|item items IH]; intros embed embed' H; simpl in H.
  - by injection H as <-.
  - apply result_bind_Ok in H as (e1 & H1 & H2).
    apply attach_item_frame in H1 as (A1 & A2 & A3 & A4 & A5).
    apply IH in H2 as (B1 & B2 & B3 & B4 & B5).
    repeat split; congruence.
Qed.

(** X13.  A payload that is built has exactly one embed, of type [rich], with
    the link of the entry as URL, the link and the Markdown of the title
    of the feed as author, and a description that is the title of the
    entry as a linked heading, followed, when summaries are included, by
    the extracted text and a "Read more" link; the images leave these
    fields alone.  The user name and the avatar are given when they are
    configured and not empty. *)
Theorem payload_shape config fmeta entry payload :
  build_payload E config fmeta entry = Ok payload →
  ∃ embed t l fl ft md_text images,
    embeds payload = [embed]
    ∧ title entry = Some t ∧ link entry = Some l
    ∧ feed_link fmeta = Some fl ∧ feed_title fmeta = Some ft
    ∧ get_content E entry = Ok (md_text, images)
    ∧ embed_type embed = "rich" ∧ embed_url embed = l
    ∧ author_url embed = fl ∧ author_name embed = to_markdown E ft
    ∧ description embed
      = ("## [" +:+ to_markdown E t +:+ "](" +:+ l +:+ ")")
        +:+ (if include_summary config
             then newline +:+ md_text +:+ newline
                  +:+ "-# [Read more...](<" +:+ l +:+ ">)"
             else "")
    ∧ payload_username payload = truthy_str (username config)
    ∧ payload_avatar_url payload = truthy_str (avatar_url config).
Proof.
  unfold build_payload. intros H.
  apply result_bind_Ok in H as ([md_text images] & Hget & H).
  destruct (title entry) as [t|]; [|discriminate].
  destruct (link entry) as [l|]; [|discriminate].
  destruct (feed_link fmeta) as [fl|]; [|discriminate].
  destruct (feed_title fmeta) as [ft|]; [|discriminate].
  simpl in H. apply result_bind_Ok in H as (embed' & Hatt & H).
  injection H as <-. cbn [embeds payload_username payload_avatar_url].
  assert (∀ a : string, a +:+ "" = a) as Hnil.
  { intros a. induction a as [|x a IH]; [reflexivity|].
    change (String x (a +:+ "") = String x a). by f_equal. }
  assert (embed_type embed' = "rich" ∧ embed_url embed' = l
          ∧ author_url embed' = fl ∧ author_name embed' = to_markdown E ft
          ∧ description embed'
            = (if include_summary config
               then ("## [" +:+ to_markdown E t +:+ "](" +:+ l +:+ ")")
                    +:+ newline +:+ md_text +:+ newline
                    +:+ "-# [Read more...](<" +:+ l +:+ ">)"
               else "## [" +:+ to_markdown E t +:+ "](" +:+ l +:+ ")"))
    as (Ht & Hu & Hau & Han & Hd).
  { unfold attach_images in Hatt. destruct (include_image config).
    - destruct (media_content entry) as [items|].
      + by apply attach_media_frame in Hatt.
      + destruct images; by injection Hatt as <-.
    - by injection Hatt as <-. }
  exists embed', t, l, fl, ft, md_text, images.
  repeat (split; [done|]). split; [|done].
  rewrite Hd. destruct (include_summary config); [reflexivity|].
  symmetry. apply Hnil.
Qed.

Lemma attach_media_missing_medium items :
  Exists (λ item, medium item = None) items →
  ∀ embed, ∃ err, attach_media E items embed = Raise err.
Proof.
  induction 1 as [item items Hitem | item items _ IH]; intros embed; simpl.
  - unfold attach_item. rewrite Hitem. simpl. by eexists.
  - destruct (attach_item E embed item) as [e1|err]; simpl; [apply IH | by eexists].
Qed.

(** X14.  The loop over the media list: it passes when every item has a medium
    and every picture has a URL and numeric dimensions; it fails with
    [KeyError] or [ValueError] only; and it fails whenever some item has
    no medium. *)
Theorem media_list_failures items embed :
  (Forall (media_ok E) items → ∃ embed', attach_media E items embed = Ok embed')
  ∧ (∀ err, attach_media E items embed = Raise err →
            err = KeyError "medium" ∨ err = KeyError "url" ∨ err = ValueError)
  ∧ (Exists (λ item, medium item = None) items →
     ∃ err, attach_media E items embed = Raise err).
Proof.
  split; [|split].
  - intros Hall. revert embed.
    induction Hall as [|item items [Hm Hpic] _ IH]; intros embed; simpl.
    + by eexists.
    + assert (∃ e1, attach_item E embed item = Ok e1) as [e1 ->].
      { unfold attach_item, is_picture in *.
        destruct (medium item) as [m|]; [|done]. simpl.
        destruct (String.eqb_spec m "image") as [->|_].
        { destruct (image embed); [by eexists|].
          destruct Hpic as [a ->]; [by left|]. by eexists. }
        destruct (String.eqb_spec m "thumbnail") as [->|_].
        { destruct (thumbnail embed); [by eexists|].
          destruct Hpic as [a ->]; [by right|]. by eexists. }
        by eexists. }
      simpl. apply IH.
  - revert embed. induction items as [|item items IH]; intros embed err H;
      simpl in H; [discriminate|].
    destruct (attach_item E embed item) as [e1|err1] eqn:Hitem; simpl in H;
      [by eapply IH|].
    injection H as <-. clear IH. revert Hitem.
    assert (∀ err, media_attachment E item = Raise err →
                   err = KeyError "url" ∨ err = ValueError) as Hatt.
    { unfold media_attachment. intros err.
      destruct (media_url item); simpl; [|intros [= <-]; by left].
      destruct (height item) as [h|]; simpl.
      - destruct (int_of_str E h); simpl; [|intros [= <-]; by right].
        destruct (width item) as [w|]; simpl; [|discriminate].
        destruct (int_of_str E w); simpl; [discriminate | intros [= <-]; by right].
      - destruct (width item) as [w|]; simpl; [|discriminate].
        destruct (int_of_str E w); simpl; [discriminate | intros [= <-]; by right]. }
    unfold attach_item. destruct (medium item) as [m|]; simpl;
      [|intros [= <-]; by left].
    destruct (String.eqb m "image").
    { destruct (image embed); [discriminate|].
      destruct (media_attachment E item) eqn:Ha; simpl; [discriminate|].
      intros [= <-]. right. by apply Hatt. }
    destruct (String.eqb m "thumbnail"); [|discriminate].
    destruct (thumbnail embed); [discriminate|].
    destruct (media_attachment E item) eqn:Ha; simpl; [discriminate|].
    intros [= <-]. right. by apply Hatt.
  - intros H. by apply attach_media_missing_medium.
Qed.

(** X15.  With images included, an entry whose media list has an item without
    a medium gets no payload, hence no request, in any mode. *)
Theorem media_item_without_medium_blocks_entry
        self options config fmeta entry items st :
  include_image config = true →
  media_content entry = Some items →
  Exists (λ item, medium item = None) items →
  (∃ err, build_payload E config fmeta entry = Raise err)
  ∧ posts (process_feed_entry E self options config fmeta entry st).1
    = posts st.
Proof.
  intros Himg Hmedia Hbad.
  assert (∃ err, build_payload E config fmeta entry = Raise err) as [err Herr].
  { unfold build_payload.
    destruct (get_content E entry) as [[md_text images]|]; simpl; [|by eexists].
    destruct (title entry); simpl; [|by eexists].
    destruct (link entry); simpl; [|by eexists].
    destruct (feed_link fmeta); simpl; [|by eexists].
    destruct (feed_title fmeta); simpl; [|by eexists].
    unfold attach_images. rewrite Himg, Hmedia.
    edestruct (attach_media_missing_medium items Hbad) as [err ->].
    simpl. by eexists. }
  split; [by exists err|].
  destruct (step_posts E self options config fmeta entry st)
    as [Hposts | (payload & _ & _ & Hbuild & _)]; [done | congruence].
Qed.

End Failures.

(** ** Configuration *)

Lemma mapM_result_Ok {A B} (f : A → result B) (l : list A) (k : list B) :
  mapM f l = Ok k → Forall2 (λ x y, f x = Ok y) l k.
Proof.
  revert k. induction l as [|x l IH]; intros k H.
  - injection H as <-. constructor.
  - change (mapM f (x :: l)) with (y ← f x; k ← mapM f l; mret (y :: k)) in H.
    apply result_bind_Ok in H as (y & Hy & H).
    apply result_bind_Ok in H as (k' & Hk' & H). injection H as <-.
    constructor; [done | by apply IH].
Qed.

Lemma mapM_result_Raise {A B} (f : A → result B) (l : list A) (err : exn) :
  mapM f l = Raise err → ∃ x, x ∈ l ∧ f x = Raise err.
Proof.
  induction l as [|x l IH]; intros H; [discriminate|].
  change (mapM f (x :: l)) with (y ← f x; k ← mapM f l; mret (y :: k)) in H.
  destruct (f x) as [y|err'] eqn:Hx; simpl in H.
  - destruct (mapM f l) as [k|err'] eqn:Hl; simpl in H; [discriminate|].
    injection H as ->. destruct (IH eq_refl) as (x' & Hin & Hx').
    exists x'. split; [by apply list_elem_of_further | done].
  - injection H as ->. exists x. split; [apply list_elem_of_here | done].
Qed.

Lemma foldl_replace_field_inherits kwds :
  ∀ c, inherits c (foldl replace_field c kwds) kwds.
Proof.
  unfold inherits. induction kwds as [|o kwds IH]; intros c; simpl.
  - done.
  - destruct (IH (replace_field c o)) as (H1 & H2 & H3 & H4 & H5).
    repeat split; intros Hnot; apply not_elem_of_cons in Hnot as [Hne Hnot];
      [rewrite (H1 Hnot) | rewrite (H2 Hnot) | rewrite (H3 Hnot)
      | rewrite (H4 Hnot) | rewrite (H5 Hnot)];
      destruct o; simpl in *; congruence.
Qed.

Lemma foldl_replace_field_agrees kwds :
  existsb is_unknown kwds = false → NoDup (key_of <$> kwds) →
  ∀ c o, o ∈ kwds → agrees (foldl replace_field c kwds) o.
Proof.
  induction kwds as [|o0 kwds IH]; intros Hknown Hnodup c o Hin.
  - by apply elem_of_nil in Hin.
  - simpl in *. apply orb_false_iff in Hknown as [Hk0 Hknown].
    apply NoDup_cons in Hnodup as [Hfresh Hnodup].
    apply elem_of_cons in Hin as [->|Hin]; [|by apply IH].
    destruct (foldl_replace_field_inherits kwds (replace_field c o0))
      as (H1 & H2 & H3 & H4 & H5).
    destruct o0; simpl in *; try discriminate;
      [rewrite (H1 Hfresh) | rewrite (H2 Hfresh) | rewrite (H3 Hfresh)
      | rewrite (H4 Hfresh) | rewrite (H5 Hfresh)]; reflexivity.
Qed.

Lemma feed_config_Ok defaults spec c :
  feed_config defaults spec = Ok c → configured_from defaults spec c.
Proof.
  destruct spec as [u|kwds|]; simpl; [| |done].
  - by intros [= <-].
  - unfold replace_fields. destruct (existsb is_unknown kwds) eqn:Hknown;
      [discriminate|]. intros [= <-]. split.
    + apply foldl_replace_field_inherits.
    + intros Hnodup. by apply foldl_replace_field_agrees.
Qed.

Lemma existsb_is_unknown kwds :
  existsb is_unknown kwds = true ↔ ∃ key, Unknown key ∈ kwds.
Proof.
  rewrite existsb_exists. split.
  - intros (o & Hin & Ho). destruct o; try discriminate.
    exists key. by apply list_elem_of_In.
  - intros (key & Hin). exists (Unknown key). split; [|done].
    by apply list_elem_of_In.
Qed.

Lemma feed_config_usable defaults spec :
  usable spec → ∃ c, feed_config defaults spec = Ok c.
Proof.
  destruct spec as [u|kwds|]; simpl; [by eexists| |done].
  intros Hknown. unfold replace_fields.
  destruct (existsb is_unknown kwds) eqn:Hex; [|by eexists].
  apply existsb_is_unknown in Hex as [key Hkey]. by destruct (Hknown key).
Qed.

Lemma mapM_usable defaults specs :
  Forall usable specs →
  ∃ fs, mapM (feed_config defaults) specs = Ok fs ∧ length fs = length specs.
Proof.
  induction 1 as [|spec specs Hspec _ (fs & IH & Hlen)]; [by exists []|].
  destruct (feed_config_usable defaults spec Hspec) as [c Hc].
  exists (c :: fs).
  change (mapM (feed_config defaults) (spec :: specs))
    with (y ← feed_config defaults spec;
          k ← mapM (feed_config defaults) specs; mret (y :: k)).
  rewrite Hc, IH. simpl. by rewrite Hlen.
Qed.

Lemma mapM_first_failure defaults good bad rest err :
  Forall usable good → feed_config defaults bad = Raise err →
  mapM (feed_config defaults) (good ++ bad :: rest) = Raise err.
Proof.
  intros Hgood Hbad. induction Hgood as [|spec good Hspec _ IH]; simpl.
  - change (mapM (feed_config defaults) (bad :: rest))
      with (y ← feed_config defaults bad;
            k ← mapM (feed_config defaults) rest; mret (y :: k)).
    by rewrite Hbad.
  - destruct (feed_config_usable defaults spec Hspec) as [c Hc].
    change (mapM (feed_config defaults) (spec :: good ++ bad :: rest))
      with (y ← feed_config defaults spec;
            k ← mapM (feed_config defaults) (good ++ bad :: rest);
            mret (y :: k)).
    by rewrite Hc, IH.
Qed.

(** X16.  An agent that is built has the webhook and the ledger file of the
    configuration (no ledger file when none is given) and one feed per
    item of [feeds], in order: a feed given as a URL has that URL and the
    settings of the configuration, with summaries and images included
    unless the configuration says otherwise; a feed given as a dictionary
    has the fields the dictionary sets and, for the rest, the settings of
    the configuration. *)
Theorem feeds_inherit_settings config rss :
  configure config = Ok rss →
  ∃ specs,
    cfg_feeds config = Some specs
    ∧ cfg_webhook config = Some (webhook rss)
    ∧ database_file rss = default "" (cfg_database config)
    ∧ Forall2 (configured_from
                 {| feed_url := cfg_feed_url config;
                    username := cfg_username config;
                    avatar_url := cfg_avatar_url config;
                    include_summary := default true (cfg_include_summary config);
                    include_image := default true (cfg_include_image config) |})
              specs (feeds rss).
Proof.
  unfold configure. intros H.
  destruct (cfg_webhook config) as [w|]; [|discriminate].
  destruct (cfg_feeds config) as [specs|]; [|discriminate].
  simpl in H. apply result_bind_Ok in H as (fs & Hfs & H). injection H as <-.
  exists specs. simpl. repeat (split; [done|]).
  apply mapM_result_Ok in Hfs.
  eapply Forall2_impl; [exact Hfs|]. intros spec c. apply feed_config_Ok.
Qed.

(** X17.  Building an agent from a configuration.  Without a webhook it
    fails with [KeyError]; with a webhook and without feeds it fails with
    [KeyError]; with both, the first item of the feeds that is not usable
    decides: a dictionary with a key that is not a feed setting fails
    with [ValueError], an item that is neither a URL nor a dictionary
    with [TypeError].  When every item is usable the agent is built, with
    one feed per item. *)
Theorem configure_failures config :
  (cfg_webhook config = None → configure config = Raise (KeyError "webhook"))
  ∧ (cfg_webhook config ≠ None → cfg_feeds config = None →
     configure config = Raise (KeyError "feeds"))
  ∧ (∀ good bad rest,
       cfg_webhook config ≠ None →
       cfg_feeds config = Some (good ++ bad :: rest) →
       Forall usable good →
       (∀ kwds key, bad = FeedDict kwds → Unknown key ∈ kwds →
                    configure config = Raise ValueError)
       ∧ (bad = FeedOther → configure config = Raise TypeError))
  ∧ (∀ specs,
       cfg_webhook config ≠ None → cfg_feeds config = Some specs →
       Forall usable specs →
       ∃ rss, configure config = Ok rss
              ∧ length (feeds rss) = length specs).
Proof.
  unfold configure. split; [by intros ->|].
  destruct (cfg_webhook config) as [w|]; simpl;
    [|split; [done|split; [by intros ? ? ? ?|by intros ? ?]]].
  split; [by intros _ ->|]. split.
  - intros good bad rest _ -> Hgood. simpl. split.
    + intros kwds key -> Hkey.
      rewrite (mapM_first_failure _ good (FeedDict kwds) rest ValueError);
        [done|done|].
      simpl. unfold replace_fields.
      by rewrite (proj2 (existsb_is_unknown kwds) (ex_intro _ key Hkey)).
    + intros ->.
      by rewrite (mapM_first_failure _ good FeedOther rest TypeError).
  - intros specs _ -> Husable. simpl.
    destruct (mapM_usable (parse_config config) specs Husable)
      as (fs & -> & Hlen).
    simpl. by eexists.
Qed.

(** ** The entry point *)

(** X18.  The index into [LOG_LEVELS] is in range for every count of [-v]:
    none gives WARNING, one gives INFO, two or more give DEBUG. *)
Theorem log_level_in_range verbosity :
  log_level verbosity
  = Some (match verbosity with
          | O => 30
          | S O => 20
          | S (S _) => 10
          end).
Proof. by destruct verbosity as [|[|[|v]]]. Qed.

Section Main.

Variable E : collaborators.
Variable read_config : gmap string string → string → result Config.
Variable options : Options.

(** X19.  Nothing in [main] catches: once a configuration file cannot be read,
    an agent cannot be built, or the run of an agent ends with an
    exception (the [TypeError] of a flush, for one), the configuration
    files after it are not taken up. *)
Theorem main_stops_at_first_failure config_files more st err :
  (main_loop E read_config options config_files st).2 = Raise err →
  main_loop E read_config options (config_files ++ more) st
  = main_loop E read_config options config_files st.
Proof.
  revert st. induction config_files as [|f files IH]; intros st H; simpl in *.
  - discriminate.
  - destruct (read_config (fs st) f ≫= configure) as [rss|err']; [|done].
    destruct (process E rss options (init E rss st)) as [st' [[]|err']];
      [by apply IH | done].
Qed.

End Main.

(** ** The further properties on the samples *)

Lemma entries_are_recorded_witness :
  ∃ r, database (process_entries (Sample.world [Response 429 "rate limited"])
                   Sample.bot Sample.live Sample.config Sample.fmeta
                   [Sample.entry "e1"; FailureSample.untitled]
                   Sample.start).1 !! "e0" = Some r
       ∧ url r = Some "http://x/0".
Proof.
  destruct (entries_are_recorded (Sample.world [Response 429 "rate limited"])
              Sample.bot Sample.live Sample.config Sample.fmeta
              [Sample.entry "e1"; FailureSample.untitled] Sample.start
              FailureSample.untitled "e0")
    as (_ & r & Hr & (e & He & Hid & Hurl) & _).
  - repeat constructor; discriminate.
  - apply list_elem_of_further, list_elem_of_here.
  - reflexivity.
  - exists r. split; [exact Hr|].
    apply elem_of_cons in He as [->|He]; [discriminate Hid|].
    apply list_elem_of_singleton in He as ->. exact Hurl.
Defined.

Lemma populate_marks_sent_witness :
  truthy (sent_at "e1"
            (process_feed_entry (Sample.world []) Sample.bot
               MoreSamples.populating Sample.config Sample.fmeta
               (Sample.entry "e1") Sample.start).1) = true.
Proof.
  refine (proj1 (populate_marks_sent (Sample.world []) Sample.bot
                   MoreSamples.populating Sample.config Sample.fmeta
                   (Sample.entry "e1") "e1" Sample.start eq_refl _ eq_refl)).
  split; discriminate.
Defined.

Lemma failed_feed_is_skipped_witness :
  process_feeds MoreSamples.flagged Sample.bot Sample.live
    [Sample.config; Sample.config] Sample.start
  = process_feeds MoreSamples.flagged Sample.bot Sample.live
      [Sample.config] (count_fetch Sample.start).
Proof.
  apply (failed_feed_is_skipped MoreSamples.flagged Sample.bot Sample.live
           Sample.config [Sample.config] Sample.start).
  intros data [= <-]. reflexivity.
Defined.

Lemma entry_without_link_ends_feed_witness :
  process_entries (Sample.world [Response 204 ""]) Sample.bot Sample.live
    Sample.config Sample.fmeta [MoreSamples.linkless; Sample.entry "e1"]
    Sample.start
  = process_entries (Sample.world [Response 204 ""]) Sample.bot Sample.live
      Sample.config Sample.fmeta [MoreSamples.linkless] Sample.start
  ∧ database (process_feed_entry (Sample.world [Response 204 ""]) Sample.bot
                Sample.live Sample.config Sample.fmeta MoreSamples.linkless
                Sample.start).1 !! "e2" = Some empty_row.
Proof.
  destruct (entry_without_link_ends_feed (Sample.world [Response 204 ""])
              Sample.bot Sample.live Sample.config Sample.fmeta
              MoreSamples.linkless [] [Sample.entry "e1"] Sample.start)
    as (Hcut & _ & _ & Hrecord).
  - intros [_ Hlink]. by apply Hlink.
  - split; [exact Hcut|]. by apply Hrecord.
Defined.


Lemma flush_then_load_witness :
  fs (flushdb MoreSamples.archive Sample.bot Sample.live TwoRuns.run1).1
    !! "feeds.db" = Some "ledger"
  ∧ database (init MoreSamples.archive Sample.bot
                (flushdb MoreSamples.archive Sample.bot Sample.live
                   TwoRuns.run1).1)
    = MoreSamples.saved.
Proof.
  destruct (flush_then_load MoreSamples.archive Sample.bot Sample.live
              TwoRuns.run1 eq_refl eq_refl)
    as (Hfile & _ & Hload).
  - vm_compute. reflexivity.
  - split; [exact Hfile|].
    rewrite (Hload ltac:(vm_compute; reflexivity) _ eq_refl).
    vm_compute. reflexivity.
Defined.


Lemma payload_shape_witness :
  (description <$> embeds sample_payload)
  = ["## [Post](http://x/)" +:+ newline +:+ "Hello world" +:+ newline
     +:+ "-# [Read more...](<http://x/>)"].
Proof.
  destruct (payload_shape (Sample.world []) Sample.config Sample.fmeta
              (Sample.entry "e1") sample_payload)
    as (embed & t & l & fl & ft & md & images & Hembeds & Ht & Hl & _ & _
        & Hget & _ & _ & _ & _ & Hd & _).
  - vm_compute. reflexivity.
  - rewrite Hembeds. simpl. rewrite Hd.
    injection Ht as <-. injection Hl as <-.
    vm_compute in Hget. injection Hget as <- _. vm_compute. reflexivity.
Defined.

Lemma media_item_without_medium_blocks_entry_witness :
  (∃ err, build_payload (Sample.world []) Sample.config Sample.fmeta
            MoreSamples.plain_media = Raise err)
  ∧ posts (process_feed_entry (Sample.world [Response 204 ""]) Sample.bot
             Sample.live Sample.config Sample.fmeta MoreSamples.plain_media
             Sample.start).1 = [].
Proof.
  split.
  - apply (media_item_without_medium_blocks_entry (Sample.world []) Sample.bot
             Sample.live Sample.config Sample.fmeta MoreSamples.plain_media
             _ Sample.start eq_refl eq_refl).
    apply Exists_cons_hd. reflexivity.
  - apply (media_item_without_medium_blocks_entry (Sample.world [Response 204 ""])
             Sample.bot Sample.live Sample.config Sample.fmeta
             MoreSamples.plain_media _ Sample.start eq_refl eq_refl).
    apply Exists_cons_hd. reflexivity.
Defined.

Lemma feeds_inherit_settings_witness :
  ∃ rss, configure MoreSamples.two_feeds = Ok rss
         ∧ (username <$> feeds rss) = [Some "rss"; Some "news"]
         ∧ (include_image <$> feeds rss) = [true; false]
         ∧ (include_summary <$> feeds rss) = [true; true].
Proof.
  destruct (configure MoreSamples.two_feeds) as [rss|err] eqn:Hrss;
    [|vm_compute in Hrss; discriminate Hrss].
  exists rss. split; [reflexivity|].
  destruct (feeds_inherit_settings MoreSamples.two_feeds rss Hrss)
    as (specs & Hspecs & _ & _ & Hall).
  injection Hspecs as <-.
  apply Forall2_cons_inv_l in Hall as (c1 & fs1 & H1 & Hall & ->).
  apply Forall2_cons_inv_l in Hall as (c2 & fs2 & [Hinh Hset] & Hall & ->).
  apply Forall2_nil_inv_l in Hall as ->.
  simpl in H1. subst c1.
  destruct Hinh as (_ & _ & _ & Hsum & _).
  assert (NoDup (key_of <$> [SetFeedUrl (Some "http://y/feed");
                             SetUsername (Some "news");
                             SetIncludeImage false])) as Hnodup.
  { compute_done. }
  pose proof (Hset Hnodup (SetUsername (Some "news"))
                ltac:(apply list_elem_of_further, list_elem_of_here))
    as Hname.
  pose proof (Hset Hnodup (SetIncludeImage false)
                ltac:(do 2 apply list_elem_of_further; apply list_elem_of_here))
    as Himg.
  simpl in Hname, Himg. simpl.
  rewrite Hname, Himg, Hsum by compute_done. done.
Defined.

Lemma main_stops_at_first_failure_witness :
  main_loop MoreSamples.refusing MoreSamples.read_config Sample.live
    ["a.json"; "b.json"] Sample.start
  = main_loop MoreSamples.refusing MoreSamples.read_config Sample.live
      ["a.json"] Sample.start.
Proof.
  apply (main_stops_at_first_failure MoreSamples.refusing
           MoreSamples.read_config Sample.live ["a.json"] ["b.json"]
           Sample.start TypeError).
  vm_compute. reflexivity.
Defined.

Lemma seen_entries_survive_flush_witness :
  is_Some (database
             (flushdb (Sample.world [Response 429 "rate limited"]) Sample.bot
                Sample.live
                (process_entries (Sample.world [Response 429 "rate limited"])
                   Sample.bot Sample.live Sample.config Sample.fmeta
                   [Sample.entry "e1"; FailureSample.untitled]
                   Sample.start).1).1 !! "e1").
Proof.
  apply (seen_entries_survive_flush (Sample.world [Response 429 "rate limited"])
           Sample.bot Sample.live Sample.config Sample.fmeta
           [Sample.entry "e1"; FailureSample.untitled] Sample.start
           (Sample.entry "e1") "e1").
  - repeat constructor; discriminate.
  - apply list_elem_of_here.
  - reflexivity.
  - intros _ cutoff k.
    replace (clock_reads _) with 2%nat by (vm_compute; reflexivity).
    intros [= <-] Hk. simpl. unfold Sample.t0, day. lia.
Defined.

Lemma get_content_failures_witness :
  get_content (Sample.world []) MoreSamples.emptied = Raise IndexError
  ∧ get_content (Sample.world []) MoreSamples.unlinked
    = Raise (AttributeError "link").
Proof.
  split.
  - apply (proj1 (get_content_failures (Sample.world []) MoreSamples.emptied)).
    reflexivity.
  - apply (proj2 (get_content_failures (Sample.world []) MoreSamples.unlinked));
      [discriminate | reflexivity | vm_compute; discriminate].
Defined.

Lemma configure_failures_witness :
  configure (MoreSamples.with_feeds None) = Raise (KeyError "feeds")
  ∧ configure (MoreSamples.with_feeds
                 (Some [FeedUrl "http://x/feed";
                        FeedDict [Unknown "colour"]; FeedOther]))
    = Raise ValueError
  ∧ configure (MoreSamples.with_feeds
                 (Some [FeedUrl "http://x/feed"; FeedOther;
                        FeedDict [Unknown "colour"]]))
    = Raise TypeError
  ∧ ∃ rss, configure MoreSamples.two_feeds = Ok rss
           ∧ length (feeds rss) = 2%nat.
Proof.
  split; [|split; [|split]].
  - apply (proj1 (proj2 (configure_failures (MoreSamples.with_feeds None))));
      [discriminate | reflexivity].
  - destruct (configure_failures
                (MoreSamples.with_feeds
                   (Some [FeedUrl "http://x/feed";
                          FeedDict [Unknown "colour"]; FeedOther])))
      as (_ & _ & Hbad & _).
    apply (proj1 (Hbad [FeedUrl "http://x/feed"] (FeedDict [Unknown "colour"])
                    [FeedOther] ltac:(discriminate) eq_refl
                    ltac:(by repeat constructor))
             [Unknown "colour"] "colour" eq_refl).
    apply list_elem_of_here.
  - destruct (configure_failures
                (MoreSamples.with_feeds
                   (Some [FeedUrl "http://x/feed"; FeedOther;
                          FeedDict [Unknown "colour"]])))
      as (_ & _ & Hbad & _).
    apply (proj2 (Hbad [FeedUrl "http://x/feed"] FeedOther
                    [FeedDict [Unknown "colour"]] ltac:(discriminate) eq_refl
                    ltac:(by repeat constructor))
             eq_refl).
  - destruct (configure_failures MoreSamples.two_feeds) as (_ & _ & _ & Hok).
    apply (Hok _ ltac:(discriminate) eq_refl).
    repeat constructor; intros key Hkey;
      repeat (apply elem_of_cons in Hkey as [Hkey|Hkey]; [discriminate|]);
      by apply elem_of_nil in Hkey.
Defined.
